(** * hwp-bridge: the V1 quality gate ([scripts/v1_gate.py])

    A shallow embedding of the gate script and the proofs of its
    specification.

    Conventions of the embedding.
    - Python [int] is [Z]; [bytes] is [list Byte.byte]; [str] is [string], read
      as the UTF-8 encoding of the Python string (a substring test with an
      ASCII pattern is the same on code points and on their UTF-8 bytes).
    - Python [float] is modelled by exact rationals [Q]: [ok / total] is the
      exact quotient, [round(x, 4)] is exact decimal rounding (half to
      even), a threshold is a rational. The binary representation error of
      a float, and with it the direction in which a decimal tie that has no
      binary representation is rounded, NaN and the infinities are outside
      the model.
    - [Optional[T]] is [option T], [None] being Python's [None].
    - The subprocess, the file system, the codec and the digest are the
      environment: the operations and the theorems take them as parameters;
      a concrete environment only serves the runs at the end. *)

From Stdlib Require Import ZArith QArith Qabs Qround Lia Lqa Ascii.
From stdpp Require Import gmap strings list sorting pretty.

#[local] Open Scope Z_scope.

(** ** Python primitives used by the script *)

Module Py.

(** [a or b] on integers: the first operand when it is truthy. *)
Definition or_int (a b : Z) : Z := if a =? 0 then b else a.

(** [s or d] on an optional string: [None] and the empty string are falsy. *)
Definition or_str (s : option string) (d : string) : string :=
  match s with
  | Some EmptyString | None => d
  | Some s' => s'
  end.

(** [round(x)]: the nearest integer, a tie going to the even one. *)
Definition round (x : Q) : Z :=
  let f := Qfloor x in
  match (x - inject_Z f ?= 1 # 2)%Q with
  | Lt => f
  | Gt => f + 1
  | Eq => if Z.even f then f else f + 1
  end.

(** [round(x, n)] for [n >= 0]. *)
Definition round_ndigits (x : Q) (n : nat) : Q :=
  (inject_Z (round (x * inject_Z (10 ^ Z.of_nat n))) / inject_Z (10 ^ Z.of_nat n))%Q.

(** [x < y] on floats. *)
Definition ltb (x y : Q) : bool := negb (Qle_bool y x).

(** [pat in text]. *)
Fixpoint contains (pat text : string) : bool :=
  String.prefix pat text
  || match text with
     | EmptyString => false
     | String _ rest => contains pat rest
     end.

(** [sum(1 for x in l if P x)]. *)
Definition count_if {A} (P : A → bool) (l : list A) : Z :=
  fold_left (λ acc x, if P x then acc + 1 else acc) l 0.

(** [l[i]]: a negative index counts from the end; [None] stands for
    [IndexError]. *)
Definition index {A} (l : list A) (i : Z) : option A :=
  if i <? 0
  then (if - i <=? Z.of_nat (length l) then l !! Z.to_nat (Z.of_nat (length l) + i) else None)
  else l !! Z.to_nat i.

(** [l[:n]]: a negative bound counts from the end. *)
Definition slice_to {A} (l : list A) (n : Z) : list A :=
  if n <? 0 then take (Z.to_nat (Z.of_nat (length l) + n)) l else take (Z.to_nat n) l.

End Py.

(** The library functions the script calls: the UTF-8 decoder with
    [errors="replace"], [str.lower], [hashlib.sha256(..).hexdigest()] and the
    structure counts read off [json.loads] (lines 256-269, [None] when the
    [try] block raises). *)
Class PyRuntime := {
  decode_utf8_replace : list Byte.byte → string;
  str_lower : string → string;
  sha256_hexdigest : list Byte.byte → string;
  json_doc_stats : list Byte.byte → option (Z * Z * Z);
}.

(** ** Data model *)

Record RunResult := {
  relpath : string;
  category : option string;
  size_bytes : Z;
  ok : bool;
  error : option string;
  timing_ms : Z;
  out_sha256_a : option string;
  out_sha256_b : option string;
  deterministic : option bool;
  md_sha256_a : option string;
  md_sha256_b : option string;
  md_deterministic : option bool;
  sections : option Z;
  paragraphs : option Z;
  tables : option Z;
}.

(** What [subprocess.run] does: the child exits, or [TimeoutExpired] is
    raised with whatever output was captured. *)
Inductive ProcOutcome :=
| Completed (returncode : Z) (stdout stderr : list Byte.byte)
| TimeoutExpired (stdout stderr : option (list Byte.byte)).

(** One subprocess call as [run_cmd] saw it. *)
Record Invocation := {
  inv_cmd : list string;
  inv_timed_out : bool;
  inv_code : Z;
  inv_stdout : list Byte.byte;
  inv_stderr : list Byte.byte;
  inv_ms : Z;
}.

(** The command line options ([argparse]). *)
Record Args := {
  timeout_s : Z;
  check_markdown : bool;
  min_corpus_size : Z;
  min_success_a : Q;
  min_success_b : Q;
  min_success_c : Q;
  min_deterministic_rate : Q;
  max_files : Z;
  ci : bool;
}.

(** The world the script runs in. [category_map] is the dictionary
    [load_category_map] returned, in insertion order. [rglob_hwp] lists what
    [corpus_dir.rglob("*.hwp")] yields, each path by its parts below the
    corpus root, in the order of the operating system. [subprocess_run n]
    is the outcome and elapsed milliseconds of the [n]-th call. *)
Record Env := {
  corpus_dir_exists : bool;
  hwp_bin_exists : bool;
  hwp_bin : string;
  category_map : list (string * option string);
  path_join : string → string;
  fs_exists : string → bool;
  fs_is_file : string → bool;
  st_size : string → Z;
  rglob_hwp : list (list string);
  subprocess_run : nat → list string → Z → ProcOutcome * Z;
}.

(** The dictionary [{"p50": .., "p95": .., "p99": ..}]. *)
Record Percentiles := { p50 : Z; p95 : Z; p99 : Z }.

(** The keys ["A"], ["B"], ["C"], ["_"] of the per-category dictionaries,
    and a dictionary over exactly these keys. *)
Inductive CatKey := KA | KB | KC | K_.

#[global] Instance CatKey_eq_dec : EqDecision CatKey.
Proof. solve_decision. Defined.

Record PerCat (V : Type) := { at_A : V; at_B : V; at_C : V; at_U : V }.
Arguments at_A {V}.
Arguments at_B {V}.
Arguments at_C {V}.
Arguments at_U {V}.

Definition cat_init {V} (v : V) : PerCat V :=
  {| at_A := v; at_B := v; at_C := v; at_U := v |}.

Definition cat_get {V} (k : CatKey) (d : PerCat V) : V :=
  match k with KA => at_A d | KB => at_B d | KC => at_C d | K_ => at_U d end.

Definition cat_set {V} (k : CatKey) (v : V) (d : PerCat V) : PerCat V :=
  match k with
  | KA => {| at_A := v; at_B := at_B d; at_C := at_C d; at_U := at_U d |}
  | KB => {| at_A := at_A d; at_B := v; at_C := at_C d; at_U := at_U d |}
  | KC => {| at_A := at_A d; at_B := at_B d; at_C := v; at_U := at_U d |}
  | K_ => {| at_A := at_A d; at_B := at_B d; at_C := at_C d; at_U := v |}
  end.

Definition cat_tabulate {V} (f : CatKey → V) : PerCat V :=
  {| at_A := f KA; at_B := f KB; at_C := f KC; at_U := f K_ |}.

(** [k = r.category if r.category in {"A", "B", "C"} else "_"]. *)
Definition cat_key (category : option string) : CatKey :=
  if decide (category = Some "A") then KA
  else if decide (category = Some "B") then KB
  else if decide (category = Some "C") then KC
  else K_.

(** The local variables of the markdown block of [main]. *)
Record MdRun := {
  md_code_a : Z; md_out_a : list Byte.byte; md_err_a : list Byte.byte; ms_m1 : Z;
  md_code_b : Z; md_out_b : list Byte.byte; md_err_b : list Byte.byte; ms_m2 : Z;
  md_sha_a : option string; md_sha_b : option string; md_det : option bool;
}.

(** The aggregate values [main] computes after the loop. *)
Record Aggregate := {
  a_total : Z;
  a_ok_count : Z;
  a_det_count : Z;
  a_det_rate : Q;
  a_timing_stats : Percentiles;
  a_failures_by_type : gmap string Z;
  a_cat_totals : PerCat Z;
  a_cat_ok : PerCat Z;
  a_cat_rates : PerCat Q;
}.

Record Summary := {
  total_files : Z;
  s_ok : Z;
  s_failed : Z;
  s_totals : PerCat Z;
  s_cat_ok : PerCat Z;
  s_success_rate : PerCat Q;
  deterministic_rate : Q;
  s_timing_ms : Percentiles;
  failures_by_type : gmap string Z;
  s_thresholds : Args;
}.

(** What a completed run leaves: the detail records in file order, the
    summary, the aggregate it was made from and the subprocess calls. *)
Record Report := {
  details : list RunResult;
  summary : Summary;
  rep_aggregate : Aggregate;
  rep_trace : list Invocation;
}.

(** ** Paths *)

(** The order of [pathlib] paths: by parts, each part as a string. *)
Fixpoint path_leb (p q : list string) : bool :=
  match p, q with
  | [], _ => true
  | _ :: _, [] => false
  | a :: p', b :: q' => if decide (a = b) then path_leb p' q' else String.leb a b
  end.

Definition path_le (p q : list string) : Prop := path_leb p q.

(** [as_posix] of a relative path. *)
Definition as_posix (parts : list string) : string := String.concat "/" parts.

(** ** Operations *)

Section Gate.
Context `{PyRuntime}.

Definition sha256_bytes (b : list Byte.byte) : string := sha256_hexdigest b.

(** [run_cmd]: the call is appended to the trace of calls made so far. *)
Definition run_cmd (E : Env) (cmd : list string) (timeout : Z) (tr : list Invocation)
  : (Z * list Byte.byte * list Byte.byte * Z) * list Invocation :=
  let '(outcome, ms) := subprocess_run E (length tr) cmd timeout in
  match outcome with
  | Completed returncode stdout stderr =>
      ((returncode, stdout, stderr, ms),
       tr ++ [{| inv_cmd := cmd; inv_timed_out := false; inv_code := returncode;
                 inv_stdout := stdout; inv_stderr := stderr; inv_ms := ms |}])
  | TimeoutExpired so se =>
      let stdout := default [] so in
      let stderr := default [] se in
      ((124, stdout, stderr, ms),
       tr ++ [{| inv_cmd := cmd; inv_timed_out := true; inv_code := 124;
                 inv_stdout := stdout; inv_stderr := stderr; inv_ms := ms |}])
  end.

(** The first line of [classify_error]: the text the rules look at. *)
Definition error_text (stderr stdout : list Byte.byte) : string :=
  str_lower (decode_utf8_replace (stderr ++ [Byte.x0a] ++ stdout)).

Definition classify_error (stderr stdout : list Byte.byte) (code : Z) : string :=
  let text := error_text stderr stdout in
  if Py.contains "encrypted" text || Py.contains "encryption" text then "encrypted"
  else if Py.contains "distribution" text then "distribution"
  else if Py.contains "size limit" text || Py.contains "sizelimit" text
          || Py.contains "limit exceeded" text then "size_limit"
  else if code =? 124 then "timeout"
  else "parse_error".

(** [percentiles]: [pick] closes over the sorted list [v]. *)
Definition pick (v : list Z) (p : Q) : option Z :=
  let idx :=
    Z.max 0 (Z.min (Z.of_nat (length v) - 1)
                   (Py.round (p * inject_Z (Z.of_nat (length v) - 1)))) in
  Py.index v idx.

Definition percentiles (values : list Z) : option Percentiles :=
  match values with
  | [] => Some {| p50 := 0; p95 := 0; p99 := 0 |}
  | _ :: _ =>
      let v := merge_sort Z.le values in
      a ← pick v (50 # 100)%Q;
      b ← pick v (95 # 100)%Q;
      c ← pick v (99 # 100)%Q;
      Some {| p50 := a; p95 := b; p99 := c |}
  end.

(** [category_map.get(rel)]: a missing key and a [None] value both give
    [None]. *)
Definition dict_get (m : list (string * option string)) (rel : string) : option string :=
  match list_find (λ kv, kv.1 = rel) m with
  | Some (_, (_, v)) => v
  | None => None
  end.

(** The loop of lines 148-151 over the keys of the mapping. *)
Definition manifest_files (E : Env) (keys : list string) : list (string * string) :=
  fold_left
    (λ files rel,
       let p := path_join E rel in
       if fs_exists E p && fs_is_file E p then files ++ [(p, rel)] else files)
    keys [].

(** The loop of lines 155-158 over the sorted scan. *)
Definition scan_files (E : Env) (files : list (string * string)) : list (string * string) :=
  fold_left
    (λ files parts,
       let rel := as_posix parts in
       let p := path_join E rel in
       if fs_is_file E p then files ++ [(p, rel)] else files)
    (merge_sort path_le (rglob_hwp E)) files.

Definition find_corpus_files (E : Env) (category_map : list (string * option string))
  : list (string * string) :=
  match category_map with
  | _ :: _ =>
      let files := manifest_files E category_map.*1 in
      match files with
      | _ :: _ => files
      | [] => scan_files E files
      end
  | [] => scan_files E []
  end.

Definition rate (ok total : Z) : Q :=
  if total =? 0 then 0%Q else (inject_Z ok / inject_Z total)%Q.

(** Lines 195-199 of [main]: resolution, then the cap. *)
Definition resolve_files (args : Args) (E : Env) : list (string * string) :=
  let files := find_corpus_files E (category_map E) in
  if negb (max_files args =? 0) && (0 <? max_files args)
  then Py.slice_to files (max_files args)
  else files.

(** Lines 229-242 of [main]: the optional markdown runs. *)
Definition run_markdown (args : Args) (E : Env) (p : string) (tr : list Invocation)
  : MdRun * list Invocation :=
  if check_markdown args then
    let '((code_a, out_a, err_a, ms1), tr) :=
      run_cmd E [hwp_bin E; "markdown"; p] (timeout_s args) tr in
    let '((code_b, out_b, err_b, ms2), tr) :=
      run_cmd E [hwp_bin E; "markdown"; p] (timeout_s args) tr in
    let both := (code_a =? 0) && (code_b =? 0) in
    ({| md_code_a := code_a; md_out_a := out_a; md_err_a := err_a; ms_m1 := ms1;
        md_code_b := code_b; md_out_b := out_b; md_err_b := err_b; ms_m2 := ms2;
        md_sha_a := if both then Some (sha256_bytes out_a) else None;
        md_sha_b := if both then Some (sha256_bytes out_b) else None;
        md_det := if both
                  then Some (String.eqb (sha256_bytes out_a) (sha256_bytes out_b))
                  else None |}, tr)
  else
    ({| md_code_a := 0; md_out_a := []; md_err_a := []; ms_m1 := 0;
        md_code_b := 0; md_out_b := []; md_err_b := []; ms_m2 := 0;
        md_sha_a := None; md_sha_b := None; md_det := None |}, tr).

(** The body of the loop of [main] (lines 218-295) for one file. *)
Definition process_file (args : Args) (E : Env) (p rel : string) (tr : list Invocation)
  : RunResult * list Invocation :=
  let size := st_size E p in
  let cat := dict_get (category_map E) rel in
  let '((code_i, out_i, err_i, ms_i), tr) :=
    run_cmd E [hwp_bin E; "info"; p] (timeout_s args) tr in
  let '((code_a, out_a, err_a, ms_a), tr) :=
    run_cmd E [hwp_bin E; "json"; p] (timeout_s args) tr in
  let '((code_b, out_b, err_b, ms_b), tr) :=
    run_cmd E [hwp_bin E; "json"; p] (timeout_s args) tr in
  let '(md, tr) := run_markdown args E p tr in
  let ok :=
    (code_i =? 0) && (code_a =? 0) && (code_b =? 0)
    && (negb (check_markdown args) || ((md_code_a md =? 0) && (md_code_b md =? 0))) in
  let err :=
    if ok then None
    else Some (classify_error
                 (err_i ++ err_a ++ err_b ++ md_err_a md ++ md_err_b md)
                 (out_i ++ out_a ++ out_b ++ md_out_a md ++ md_out_b md)
                 (Py.or_int code_a (Py.or_int code_i
                    (Py.or_int (md_code_a md) (md_code_b md))))) in
  let sha_a := if ok then Some (sha256_bytes out_a) else None in
  let sha_b := if ok then Some (sha256_bytes out_b) else None in
  let det :=
    if ok then Some (String.eqb (sha256_bytes out_a) (sha256_bytes out_b)) else None in
  let stats := if ok then json_doc_stats out_a else None in
  ({| relpath := rel;
      category := cat;
      size_bytes := size;
      ok := ok;
      error := err;
      timing_ms := ms_i + ms_a + ms_b + ms_m1 md + ms_m2 md;
      out_sha256_a := sha_a;
      out_sha256_b := sha_b;
      deterministic := det;
      md_sha256_a := md_sha_a md;
      md_sha256_b := md_sha_b md;
      md_deterministic := md_det md;
      sections := (λ s, s.1.1) <$> stats;
      paragraphs := (λ s, s.1.2) <$> stats;
      tables := (λ s, s.2) <$> stats |}, tr).

(** The loop of [main] over the resolved files. *)
Fixpoint run_files (args : Args) (E : Env) (files : list (string * string))
    (results : list RunResult) (tr : list Invocation)
  : list RunResult * list Invocation :=
  match files with
  | [] => (results, tr)
  | (p, rel) :: files' =>
      let '(r, tr') := process_file args E p rel tr in
      run_files args E files' (results ++ [r]) tr'
  end.

(** [r.ok and r.deterministic], as a truth value. *)
Definition ok_and_deterministic (r : RunResult) : bool :=
  ok r && match deterministic r with Some true => true | _ => false end.

(** Lines 309-313. *)
Definition count_failures (results : list RunResult) : gmap string Z :=
  fold_left
    (λ (m : gmap string Z) r,
       if ok r then m
       else let k := Py.or_str (error r) "unknown" in
            <[k := default 0 (m !! k) + 1]> m)
    results ∅.

(** Lines 316-322. *)
Definition count_categories (results : list RunResult) : PerCat Z * PerCat Z :=
  fold_left
    (λ '(cat_totals, cat_ok) r,
       let k := cat_key (category r) in
       let cat_totals := cat_set k (cat_get k cat_totals + 1) cat_totals in
       (cat_totals, if ok r then cat_set k (cat_get k cat_ok + 1) cat_ok else cat_ok))
    results (cat_init 0, cat_init 0).

(** Lines 300-324: the aggregate of a run. *)
Definition aggregate (results : list RunResult) : option Aggregate :=
  let total := Z.of_nat (length results) in
  let ok_count := Py.count_if ok results in
  let det_count := Py.count_if ok_and_deterministic results in
  let det_rate := rate det_count ok_count in
  let timings := timing_ms <$> filter (λ r, ok r = true) results in
  timing_stats ← percentiles timings;
  let failures := count_failures results in
  let '(cat_totals, cat_ok) := count_categories results in
  let cat_rates :=
    cat_tabulate (λ k, Py.round_ndigits (rate (cat_get k cat_ok) (cat_get k cat_totals)) 4) in
  Some {| a_total := total; a_ok_count := ok_count; a_det_count := det_count;
          a_det_rate := det_rate; a_timing_stats := timing_stats;
          a_failures_by_type := failures; a_cat_totals := cat_totals;
          a_cat_ok := cat_ok; a_cat_rates := cat_rates |}.

(** Lines 336-357: the summary document (time stamp, artifact paths and
    notes left out). *)
Definition summary_of (args : Args) (a : Aggregate) : Summary :=
  {| total_files := a_total a;
     s_ok := a_ok_count a;
     s_failed := a_total a - a_ok_count a;
     s_totals := a_cat_totals a;
     s_cat_ok := a_cat_ok a;
     s_success_rate := a_cat_rates a;
     deterministic_rate := Py.round_ndigits (a_det_rate a) 4;
     s_timing_ms := a_timing_stats a;
     failures_by_type := a_failures_by_type a;
     s_thresholds := args |}.

(** Lines 361-376: the gate. *)
Definition gate_ok (args : Args) (a : Aggregate) : bool :=
  let g := true in
  let g :=
    if negb (min_corpus_size args =? 0) && (a_total a <? min_corpus_size args)
    then false else g in
  let g :=
    if (0 <? cat_get KA (a_cat_totals a))
       && Py.ltb (cat_get KA (a_cat_rates a)) (min_success_a args)
    then false else g in
  let g :=
    if (0 <? cat_get KB (a_cat_totals a))
       && Py.ltb (cat_get KB (a_cat_rates a)) (min_success_b args)
    then false else g in
  let g :=
    if (0 <? cat_get KC (a_cat_totals a))
       && Py.ltb (cat_get KC (a_cat_rates a)) (min_success_c args)
    then false else g in
  let g := if Py.ltb (a_det_rate a) (min_deterministic_rate args) then false else g in
  g.

(** [main]: the exit code and, when the run took place, its report.
    [None] stands for an uncaught exception. *)
Definition main (args : Args) (E : Env) : option (Z * option Report) :=
  if negb (corpus_dir_exists E) then Some (3, None)
  else
    let files := resolve_files args E in
    match files with
    | [] => Some (3, None)
    | _ :: _ =>
        if negb (hwp_bin_exists E) then Some (3, None)
        else
          let '(results, tr) := run_files args E files [] [] in
          a ← aggregate results;
          let rep := {| details := results; summary := summary_of args a;
                        rep_aggregate := a; rep_trace := tr |} in
          Some (if gate_ok args a then 0 else 2, Some rep)
    end.

End Gate.

(** ** A concrete runtime and concrete runs

    [ascii_runtime] agrees with Python on ASCII input: decoding valid UTF-8
    keeps the bytes, [lower] maps [A-Z] to [a-z]. Its digest is the input
    itself: the runs below hash the outputs "{}" and "{ }" only, which
    SHA-256 tells apart as well, so that every verdict is the one of the
    script. No structure counts are read. *)

Definition ascii_lower_char (c : ascii) : ascii :=
  let n := nat_of_ascii c in
  if (65 <=? n)%nat && (n <=? 90)%nat then ascii_of_nat (n + 32) else c.

Fixpoint ascii_lower (s : string) : string :=
  match s with
  | EmptyString => EmptyString
  | String c rest => String (ascii_lower_char c) (ascii_lower rest)
  end.

Definition ascii_runtime : PyRuntime :=
  {| decode_utf8_replace := String.string_of_list_byte;
     str_lower := ascii_lower;
     sha256_hexdigest := String.string_of_list_byte;
     json_doc_stats := λ _, None |}.

Definition bytes_of (s : string) : list Byte.byte := String.list_byte_of_string s.

(** The defaults of [argparse]. *)
Definition default_args : Args :=
  {| timeout_s := 30; check_markdown := false; min_corpus_size := 100;
     min_success_a := (95 # 100)%Q; min_success_b := (85 # 100)%Q;
     min_success_c := (80 # 100)%Q; min_deterministic_rate := (99 # 100)%Q;
     max_files := 0; ci := false |}.

(** A child that prints an empty document and exits with 0. *)
Definition child_ok : ProcOutcome * Z := (Completed 0 (bytes_of "{}") [], 7).

(** A child that fails with a diagnostic that matches no text rule. *)
Definition child_fail : ProcOutcome * Z := (Completed 1 [] (bytes_of "bad record header"), 7).

(** A child killed at the deadline, nothing captured. *)
Definition child_timeout : ProcOutcome * Z := (TimeoutExpired None None, 30000).

(** A corpus whose manifest lists [n] files, all present, the [i]-th of
    category [cat i]; [child k cmd] decides what the [k]-th call does. *)
Definition corpus_of (cat : nat → option string) (n : nat)
    (child : nat → list string → ProcOutcome * Z) : Env :=
  {| corpus_dir_exists := true;
     hwp_bin_exists := true;
     hwp_bin := "/repo/target/release/hwp";
     category_map := (λ i : nat, ("doc" +:+ pretty i +:+ ".hwp", cat i)) <$> seq 0 n;
     path_join := λ rel, "/repo/corpus/local/" +:+ rel;
     fs_exists := λ _, true;
     fs_is_file := λ _, true;
     st_size := λ _, 4096;
     rglob_hwp := [];
     subprocess_run := λ k cmd _, child k cmd |}.

Definition corpus_A : nat → (nat → list string → ProcOutcome * Z) → Env :=
  corpus_of (λ _, Some "A").

(** Three files of category A; every call on the third file fails. *)
Definition env_two_of_three : Env :=
  corpus_A 3 (λ k _, if (k <? 6)%nat then child_ok else child_fail).

Definition args_two_thirds : Args :=
  {| timeout_s := 30; check_markdown := false; min_corpus_size := 3;
     min_success_a := (6667 # 10000)%Q; min_success_b := (85 # 100)%Q;
     min_success_c := (80 # 100)%Q; min_deterministic_rate := (99 # 100)%Q;
     max_files := 0; ci := false |}.


(** One file; [info] runs into the deadline and both structured-output
    calls fail with a diagnostic that matches no text rule. *)
Definition env_info_timeout : Env :=
  corpus_A 1 (λ k _, if (k =? 0)%nat then child_timeout else child_fail).

(** One file; [info] runs into the deadline, the structured-output calls
    succeed. *)
Definition env_info_timeout_only : Env :=
  corpus_A 1 (λ k _, if (k =? 0)%nat then child_timeout else child_ok).

(** One file; the second structured-output call alone runs into the
    deadline. *)
Definition env_second_json_timeout : Env :=
  corpus_A 1 (λ k _, if (k =? 2)%nat then child_timeout else child_ok).

(** Three files, all successful; the second structured output of the third
    file differs from the first one. *)
Definition env_one_unstable : Env :=
  corpus_A 3 (λ k _, if (k =? 8)%nat then (Completed 0 (bytes_of "{ }") [], 7) else child_ok).

(** One file, with the markdown check: [info] fails, the other four calls
    succeed. *)
Definition env_info_fails : Env :=
  corpus_A 1 (λ k _, if (k =? 0)%nat then child_fail else child_ok).

Definition args_markdown : Args :=
  {| timeout_s := 30; check_markdown := true; min_corpus_size := 1;
     min_success_a := (95 # 100)%Q; min_success_b := (85 # 100)%Q;
     min_success_c := (80 # 100)%Q; min_deterministic_rate := (99 # 100)%Q;
     max_files := 0; ci := false |}.

(** A corpus without manifest: the scan finds three paths, one of them a
    directory. *)
Definition env_scan : Env :=
  {| corpus_dir_exists := true;
     hwp_bin_exists := true;
     hwp_bin := "/repo/target/release/hwp";
     category_map := [];
     path_join := λ rel, "/repo/corpus/local/" +:+ rel;
     fs_exists := λ _, true;
     fs_is_file := λ p, negb (String.eqb p "/repo/corpus/local/old.hwp");
     st_size := λ _, 4096;
     rglob_hwp := [["sub"; "b.hwp"]; ["old.hwp"]; ["a.hwp"]];
     subprocess_run := λ _ _ _, child_ok |}.

(** A manifest of three entries, the second of which is missing on disk. *)
Definition env_manifest : Env :=
  {| corpus_dir_exists := true;
     hwp_bin_exists := true;
     hwp_bin := "/repo/target/release/hwp";
     category_map := [("z.hwp", Some "B"); ("gone.hwp", Some "A"); ("a.hwp", None)];
     path_join := λ rel, "/repo/corpus/local/" +:+ rel;
     fs_exists := λ p, negb (String.eqb p "/repo/corpus/local/gone.hwp");
     fs_is_file := λ p, negb (String.eqb p "/repo/corpus/local/gone.hwp");
     st_size := λ _, 4096;
     rglob_hwp := [["a.hwp"]; ["z.hwp"]];
     subprocess_run := λ _ _ _, child_ok |}.

Definition args_two_thirds_det : Args :=
  {| timeout_s := 30; check_markdown := false; min_corpus_size := 3;
     min_success_a := (95 # 100)%Q; min_success_b := (85 # 100)%Q;
     min_success_c := (80 # 100)%Q; min_deterministic_rate := (6667 # 10000)%Q;
     max_files := 0; ci := false |}.

(** Fifty unlabeled files, every call succeeds. *)
Definition env_fifty : Env := corpus_of (λ _, None) 50 (λ _ _, child_ok).

(** 120 files: 80 of category A, then 20 of B, then 20 of C. The calls on
    the last two files of A and on the last four files of B fail. Without
    the markdown check the [i]-th file takes the calls [3 i], [3 i + 1],
    [3 i + 2]. *)
Definition env_120 : Env :=
  corpus_of
    (λ i, if (i <? 80)%nat then Some "A" else if (i <? 100)%nat then Some "B" else Some "C")
    120
    (λ k _,
       let i := (k / 3)%nat in
       if ((78 <=? i) && (i <? 80) || (96 <=? i) && (i <? 100))%nat
       then child_fail else child_ok).

(** ** Vocabulary of the specification *)

(** [text] mentions [pat]: [pat] occurs in it. *)
Definition mentions (pat text : string) : Prop := ∃ l r, text = l +:+ pat +:+ r.




(** The five error kinds. *)
Definition error_kinds : list string :=
  ["encrypted"; "distribution"; "size_limit"; "timeout"; "parse_error"].

(** [x] stands at the rank nearest to the fraction [p] of the way through
    the sorted list [v]: at a position within one half of [p * (n - 1)]. *)
Definition nearest_rank (v : list Z) (p : Q) (x : Z) : Prop :=
  ∃ i : nat,
    v !! i = Some x
    ∧ (Qabs (inject_Z (Z.of_nat i) - p * inject_Z (Z.of_nat (length v) - 1)) <= 1 # 2)%Q.

(** The successful records, and the records of one category. *)
Definition successes (rs : list RunResult) : list RunResult :=
  filter (λ r, ok r = true) rs.

Definition in_category (k : string) (rs : list RunResult) : list RunResult :=
  filter (λ r, category r = Some k) rs.

(** The records whose two structured outputs had the same hash. *)
Definition reproducible (rs : list RunResult) : list RunResult :=
  filter (λ r, deterministic r = Some true) rs.

(** The success rate of a non-empty set of records, as an exact ratio. *)
Definition success_rate (rs : list RunResult) : Q :=
  (inject_Z (Z.of_nat (length (successes rs))) / inject_Z (Z.of_nat (length rs)))%Q.

(** Deterministic count over success count, 0 without a success. *)
Definition determinism_rate (rs : list RunResult) : Q :=
  match successes rs with
  | [] => 0%Q
  | _ :: _ =>
      (inject_Z (Z.of_nat (length (reproducible (successes rs))))
       / inject_Z (Z.of_nat (length (successes rs))))%Q
  end.

(** A category meets its minimum: it has no file, or its success rate, as
    [shown], reaches the minimum. *)
Definition category_meets (shown : Q → Q) (k : string) (minimum : Q)
    (rs : list RunResult) : Prop :=
  in_category k rs ≠ [] → (minimum <= shown (success_rate (in_category k rs)))%Q.

(** The decision of the threshold evaluator, the success rates being
    compared as [shown]. The unlabeled records have no clause. *)
Definition thresholds_met (shown : Q → Q) (args : Args) (rs : list RunResult) : Prop :=
  min_corpus_size args ≤ Z.of_nat (length rs)
  ∧ category_meets shown "A" (min_success_a args) rs
  ∧ category_meets shown "B" (min_success_b args) rs
  ∧ category_meets shown "C" (min_success_c args) rs
  ∧ (min_deterministic_rate args <= determinism_rate rs)%Q.

(** The success rate as the summary shows it. *)
Definition four_decimals (q : Q) : Q := Py.round_ndigits q 4.

(** Setup succeeded: the three checks of [main] before the loop pass. *)
Definition setup_ok (args : Args) (E : Env) : Prop :=
  corpus_dir_exists E = true ∧ resolve_files args E ≠ [] ∧ hwp_bin_exists E = true.




(** Some call of the file ran into the deadline. *)
Definition timed_out_file (invs : list Invocation) : Prop :=
  ∃ i, i ∈ invs ∧ inv_timed_out i = true.


(** The exit status the classifier is given: of the calls of a file, in the
    order first structured output, info, markdown, markdown, the first
    status that is not 0. *)
Definition dominant_status (invs : list Invocation) : option Z :=
  match invs with
  | i :: a :: _ :: mds => snd <$> list_find (λ c, c ≠ 0) (inv_code <$> a :: i :: mds)
  | _ => None
  end.

(** The command lines run for a file, in call order. *)
Definition expected_commands (args : Args) (E : Env) (p : string) : list (list string) :=
  [[hwp_bin E; "info"; p]; [hwp_bin E; "json"; p]; [hwp_bin E; "json"; p]]
  ++ (if check_markdown args
      then [[hwp_bin E; "markdown"; p]; [hwp_bin E; "markdown"; p]]
      else []).

(** [P p r invs] holds of every processed file of a run, [p] being its path,
    [r] its record and [invs] the calls made for it. *)
Definition every_file `{PyRuntime} (args : Args) (E : Env) (rep : Report)
    (P : string → RunResult → list Invocation → Prop) : Prop :=
  Forall
    (λ r, ∃ p tr0 invs,
       (p, relpath r) ∈ resolve_files args E
       ∧ process_file args E p (relpath r) tr0 = (r, tr0 ++ invs)
       ∧ (tr0 ++ invs) `prefix_of` rep_trace rep
       ∧ P p r invs)
    (details rep).

(** No hash and no determinism verdict at all in a record. *)
Definition no_hashes (r : RunResult) : Prop :=
  out_sha256_a r = None ∧ out_sha256_b r = None ∧ deterministic r = None
  ∧ md_sha256_a r = None ∧ md_sha256_b r = None ∧ md_deterministic r = None.


(** The regular files among the paths [scan], in that order. *)
Definition scanned_files (E : Env) (scan : list (list string)) : list (string * string) :=
  (λ parts, (path_join E (as_posix parts), as_posix parts))
    <$> filter (λ parts, fs_is_file E (path_join E (as_posix parts)) = true) scan.


(** ** The manifest: its loader ([load_category_map]) and its scanner
    ([scripts/corpus_scan.py]) *)

(** [str.strip] and [str.upper], which the loader applies to a category. *)
Class PyStr := {
  str_strip : string → string;
  str_upper : string → string;
}.

(** [hashlib.sha256()] as the scanner uses it: a state that is updated
    chunk by chunk. *)
Class HashLib := {
  hash_state : Type;
  h_new : hash_state;
  h_update : hash_state → list Byte.byte → hash_state;
  h_hexdigest : hash_state → string;
}.

(** What the loader reads of one manifest item: ["relpath"], a string or
    absent (or null), and ["category"], [Some] for a JSON string and [None]
    for anything else (absent, null, a number, ...). A relpath of another
    JSON type is outside this type. *)
Record ManifestItem := {
  it_relpath : option string;
  it_category : option string;
}.

(** The manifest file as [load_category_map] meets it: not there, there
    but not JSON, or a JSON object whose ["items"] is a list, or absent. *)
Inductive ManifestFile :=
| Missing
| Unparsable
| Parsed (items : option (list ManifestItem)).

(** [m[k] = v] on a dictionary kept in insertion order: an old key keeps its
    place. *)
Fixpoint dict_set (m : list (string * option string)) (k : string) (v : option string)
  : list (string * option string) :=
  match m with
  | [] => [(k, v)]
  | (k', v') :: m' =>
      if decide (k' = k) then (k, v) :: m' else (k', v') :: dict_set m' k v
  end.

(** [s.replace(c, by)] for a one-character [c]. *)
Fixpoint str_replace_char (c : ascii) (by_ : string) (s : string) : string :=
  match s with
  | EmptyString => EmptyString
  | String x rest =>
      if decide (x = c) then by_ +:+ str_replace_char c by_ rest
      else String x (str_replace_char c by_ rest)
  end.

(** One item of the manifest the scanner writes. Its ["flags"], ["source"]
    and ["notes"] are constants ([{}], nulls) and left out. *)
Record ScanItem := {
  si_id : string;
  si_relpath : string;
  si_sha256 : string;
  si_size_bytes : Z;
  si_category : option string;
}.

Section Manifest.
Context `{PyStr}.

(** Lines 130-138: the category stored for an item. *)
Definition normalize_category (cat : option string) : option string :=
  match cat with
  | Some c =>
      let cat_u := str_upper (str_strip c) in
      if bool_decide (cat_u ∈ ["A"; "B"; "C"]) then Some cat_u else None
  | None => None
  end.

Definition load_category_map (manifest : ManifestFile) : list (string * option string) :=
  match manifest with
  | Missing => []
  | Unparsable => []
  | Parsed data =>
      let items := default [] data in
      fold_left
        (λ m it,
           match it_relpath it with
           | None => m
           | Some rel =>
               if decide (rel = "") then m
               else dict_set m rel (normalize_category (it_category it))
           end)
        items []
  end.

End Manifest.

(** The size of the chunks [sha256_file] reads. *)
Definition chunk_size : nat := 1024 * 1024.

Section Scanner.
Context `{HashLib}.

(** The loop of [sha256_file]: [f.read(1024 * 1024)] until it returns
    [b""]. A pass that reads something shortens what is left, so
    [S (length content)] passes are enough. *)
Fixpoint read_chunks (fuel : nat) (content : list Byte.byte) (h : hash_state) : hash_state :=
  match fuel with
  | O => h
  | S fuel' =>
      match take chunk_size content with
      | [] => h
      | chunk => read_chunks fuel' (drop chunk_size content) (h_update h chunk)
      end
  end.

(** [sha256_file], of a file with the given content. *)
Definition sha256_file (content : list Byte.byte) : string :=
  h_hexdigest (read_chunks (S (length content)) content h_new).

(** The loop of the scanner's [main]: one item per path of the sorted scan;
    [read] gives the content of a path that can be opened for reading, and
    [None], an exception, stands for one that cannot. *)
Definition scan_items (E : Env) (read : string → option (list Byte.byte))
  : option (list ScanItem) :=
  mapM
    (λ parts,
       let rel := as_posix parts in
       content ← read (path_join E rel);
       Some {| si_id := str_replace_char "/" "__" rel;
               si_relpath := rel;
               si_sha256 := sha256_file content;
               si_size_bytes := st_size E (path_join E rel);
               si_category := None |})
    (merge_sort path_le (rglob_hwp E)).

End Scanner.

(** The written manifest as the loader reads it back. *)
Definition manifest_of_scan (items : list ScanItem) : ManifestFile :=
  Parsed (Some ((λ si, {| it_relpath := Some (si_relpath si);
                          it_category := si_category si |}) <$> items)).

(** The environment of a run whose mapping is loaded from a manifest. *)
Definition with_manifest `{PyStr} (E : Env) (manifest : ManifestFile) : Env :=
  {| corpus_dir_exists := corpus_dir_exists E;
     hwp_bin_exists := hwp_bin_exists E;
     hwp_bin := hwp_bin E;
     category_map := load_category_map manifest;
     path_join := path_join E;
     fs_exists := fs_exists E;
     fs_is_file := fs_is_file E;
     st_size := st_size E;
     rglob_hwp := rglob_hwp E;
     subprocess_run := subprocess_run E |}.

(** ASCII instances of the string functions, and a hash whose state is
    what it was fed. *)
Definition ascii_upper_char (c : ascii) : ascii :=
  let n := nat_of_ascii c in
  if (97 <=? n)%nat && (n <=? 122)%nat then ascii_of_nat (n - 32) else c.

Fixpoint ascii_upper (s : string) : string :=
  match s with
  | EmptyString => EmptyString
  | String c rest => String (ascii_upper_char c) (ascii_upper rest)
  end.

Fixpoint ascii_lstrip (s : string) : string :=
  match s with
  | EmptyString => EmptyString
  | String c rest => if Ascii.is_space c then ascii_lstrip rest else s
  end.

Definition ascii_strip (s : string) : string :=
  String.rev (ascii_lstrip (String.rev (ascii_lstrip s))).

Definition ascii_str : PyStr := {| str_strip := ascii_strip; str_upper := ascii_upper |}.

Definition list_hash : HashLib :=
  {| hash_state := list Byte.byte;
     h_new := [];
     h_update := λ h chunk, h ++ chunk;
     h_hexdigest := String.string_of_list_byte |}.

(** A manifest with a repeated relpath, an unknown label, an item without
    relpath and one with an empty relpath. *)
Definition items_sample : list ManifestItem :=
  [ {| it_relpath := Some "a.hwp"; it_category := Some " a " |};
    {| it_relpath := Some "z.hwp"; it_category := Some "D" |};
    {| it_relpath := None; it_category := Some "A" |};
    {| it_relpath := Some ""; it_category := Some "B" |};
    {| it_relpath := Some "a.hwp"; it_category := Some "c" |} ].

Definition manifest_sample : ManifestFile := Parsed (Some items_sample).

(** The defaults with a cap of two files. *)
Definition args_capped : Args :=
  {| timeout_s := 30; check_markdown := false; min_corpus_size := 100;
     min_success_a := (95 # 100)%Q; min_success_b := (85 # 100)%Q;
     min_success_c := (80 # 100)%Q; min_deterministic_rate := (99 # 100)%Q;
     max_files := 2; ci := false |}.

(** Every file of the corpus can be read and holds two bytes. *)
Definition read_all : string → option (list Byte.byte) := λ _, Some (bytes_of "ab").

(** ** Further vocabulary *)

(** The elapsed milliseconds of a list of calls, added up. *)
Definition total_ms (invs : list Invocation) : Z := foldr (λ i acc, inv_ms i + acc) 0 invs.

(** The failed records. *)
Definition failures (rs : list RunResult) : list RunResult := filter (λ r, ok r = false) rs.

(** The records whose category is none of A, B, C. *)
Definition unlabeled (rs : list RunResult) : list RunResult :=
  filter (λ r, cat_key (category r) = K_) rs.

(** The options with the three category minima moved by [d]. *)
Definition shift_minima (d : Q) (args : Args) : Args :=
  {| timeout_s := timeout_s args;
     check_markdown := check_markdown args;
     min_corpus_size := min_corpus_size args;
     min_success_a := (min_success_a args + d)%Q;
     min_success_b := (min_success_b args + d)%Q;
     min_success_c := (min_success_c args + d)%Q;
     min_deterministic_rate := min_deterministic_rate args;
     max_files := max_files args;
     ci := ci args |}.

(** The values of a histogram, added up. *)
Definition hist_sum (m : gmap string Z) : Z := map_fold (λ _ v acc, v + acc) 0 m.

(** The last item of a manifest that names [rel]. *)
Definition last_item (rel : string) (items : list ManifestItem) : option ManifestItem :=
  snd <$> list_find (λ it, it_relpath it = Some rel) (reverse items).


(** Two sets of options between which a run does not differ before the
    gate: the deadline, the markdown check and the cap agree. *)
Definition same_run (args args' : Args) : Prop :=
  timeout_s args' = timeout_s args
  ∧ check_markdown args' = check_markdown args
  ∧ max_files args' = max_files args.

(** No minimum of [args'] is above the one of [args]. *)
Definition minima_le (args' args : Args) : Prop :=
  min_corpus_size args' ≤ min_corpus_size args
  ∧ (min_success_a args' <= min_success_a args)%Q
  ∧ (min_success_b args' <= min_success_b args)%Q
  ∧ (min_success_c args' <= min_success_c args)%Q
  ∧ (min_deterministic_rate args' <= min_deterministic_rate args)%Q.

(** The world [E] in which every child that ran into the deadline is
    replaced by a child that exits on its own with status 124, having
    written what was captured. *)
Definition exit_124_for_timeout (E : Env) : Env :=
  {| corpus_dir_exists := corpus_dir_exists E;
     hwp_bin_exists := hwp_bin_exists E;
     hwp_bin := hwp_bin E;
     category_map := category_map E;
     path_join := path_join E;
     fs_exists := fs_exists E;
     fs_is_file := fs_is_file E;
     st_size := st_size E;
     rglob_hwp := rglob_hwp E;
     subprocess_run := λ n cmd t,
       match subprocess_run E n cmd t with
       | (TimeoutExpired so se, ms) => (Completed 124 (default [] so) (default [] se), ms)
       | (Completed c o e, ms) => (Completed c o e, ms)
       end |}.

(** What a run returns and writes: the exit code, the detail records and
    the summary. *)
Definition run_outputs (res : option (Z * option Report))
  : option (Z * option (list RunResult * Summary)) :=
  match res with
  | Some (code, Some rep) => Some (code, Some (details rep, summary rep))
  | Some (code, None) => Some (code, None)
  | None => None
  end.


(** One file, [info] runs into the deadline with a diagnostic captured. *)
Definition env_deadline : Env :=
  corpus_A 1
    (λ k _, if (k =? 0)%nat
            then (TimeoutExpired None (Some (bytes_of "still reading")), 30000)
            else child_ok).

(** The options of [args_two_thirds], every minimum lowered. *)
Definition args_lowered : Args :=
  {| timeout_s := 30; check_markdown := false; min_corpus_size := 1;
     min_success_a := (50 # 100)%Q; min_success_b := (50 # 100)%Q;
     min_success_c := (50 # 100)%Q; min_deterministic_rate := (90 # 100)%Q;
     max_files := 0; ci := true |}.

(** ** Python primitives: lemmas *)

Lemma append_String (a : ascii) (s r : string) : String a s +:+ r = String a (s +:+ r).
Proof. reflexivity. Qed.

Lemma prefix_true_iff (p s : string) :
  String.prefix p s = true ↔ ∃ r, s = p +:+ r.
Proof.
  revert s; induction p as [|a p IH]; intros s; simpl.
  - destruct s; (split; [intros _; by eexists | done]).
  - destruct s as [|b s].
    + split; [discriminate | intros [r Hr]; discriminate].
    + simpl. destruct (ascii_dec a b) as [->|Hab].
      * rewrite IH. split; intros [r Hr]; exists r; rewrite append_String in *; congruence.
      * split; [discriminate | intros [r Hr]; rewrite append_String in Hr; congruence].
Qed.

Lemma contains_cons (p : string) (c : ascii) (s : string) :
  Py.contains p (String c s) = String.prefix p (String c s) || Py.contains p s.
Proof. reflexivity. Qed.

Lemma contains_true_iff (p s : string) : Py.contains p s = true ↔ mentions p s.
Proof.
  unfold mentions. induction s as [|c s IH].
  - change (Py.contains p EmptyString) with (String.prefix p EmptyString || false).
    rewrite orb_false_r, prefix_true_iff. split.
    + intros [r Hr]. by exists EmptyString, r.
    + intros ([|? l] & r & Hr); [eauto | discriminate].
  - rewrite contains_cons, orb_true_iff, prefix_true_iff, IH. split.
    + intros [[r Hr] | (l & r & Hr)].
      * by exists EmptyString, r.
      * exists (String c l), r. rewrite append_String. by rewrite Hr.
    + intros ([|c' l] & r & Hr).
      * left; eauto.
      * right. exists l, r. rewrite append_String in Hr. congruence.
Qed.

Lemma contains_false_iff (p s : string) : Py.contains p s = false ↔ ¬ mentions p s.
Proof. rewrite <- contains_true_iff. destruct (Py.contains p s); naive_solver. Qed.

(** The three outcomes of the comparison in [round], as (in)equalities. *)
Lemma Qcompare_cases (x y : Q) :
  ((x ?= y)%Q = Eq ∧ (x == y)%Q) ∨ ((x ?= y)%Q = Lt ∧ (x < y)%Q) ∨ ((x ?= y)%Q = Gt ∧ (y < x)%Q).
Proof.
  destruct (x ?= y)%Q eqn:Hc.
  - left. split; [done | by apply Qeq_alt].
  - right; left. split; [done | by apply Qlt_alt].
  - right; right. split; [done | by apply Qgt_alt].
Qed.

(** [round] is within one half of its argument. *)
Lemma round_near (x : Q) : (Qabs (inject_Z (Py.round x) - x) <= 1 # 2)%Q.
Proof.
  pose proof (Qfloor_le x) as Hlo. pose proof (Qlt_floor x) as Hhi.
  rewrite inject_Z_plus in Hhi. change (inject_Z 1) with 1%Q in Hhi.
  unfold Py.round; cbv zeta.
  destruct (Qcompare_cases (x - inject_Z (Qfloor x)) (1 # 2)) as [[-> Hc] | [[-> Hc] | [-> Hc]]].
  - destruct (Z.even (Qfloor x));
      [|rewrite inject_Z_plus; change (inject_Z 1) with 1%Q];
      apply Qabs_Qle_condition; split; lra.
  - apply Qabs_Qle_condition; split; lra.
  - rewrite inject_Z_plus. change (inject_Z 1) with 1%Q.
    apply Qabs_Qle_condition; split; lra.
Qed.

(** [round] keeps its argument between two integers that bound it. *)
Lemma round_between (x : Q) (a b : Z) :
  (inject_Z a <= x)%Q → (x <= inject_Z b)%Q → a ≤ Py.round x ≤ b.
Proof.
  intros Ha Hb.
  pose proof (Qfloor_resp_le _ _ Ha) as Hfa. rewrite Qfloor_Z in Hfa.
  pose proof (Qfloor_resp_le _ _ Hb) as Hfb. rewrite Qfloor_Z in Hfb.
  pose proof (Qfloor_le x) as Hlo.
  unfold Py.round; cbv zeta.
  destruct (Qcompare_cases (x - inject_Z (Qfloor x)) (1 # 2)) as [[-> Hc] | [[-> Hc] | [-> Hc]]].
  - assert (Qfloor x ≠ b) by (intros Heq; rewrite Heq in *; lra).
    destruct (Z.even (Qfloor x)); lia.
  - lia.
  - assert (Qfloor x ≠ b) by (intros Heq; rewrite Heq in *; lra).
    lia.
Qed.

(** ** The output classifier *)

(** Case analysis on every substring test of the goal. *)
Ltac case_contains :=
  repeat match goal with
    | |- context [Py.contains ?p ?t] =>
        let Hm := fresh "Hm" in
        destruct (Py.contains p t) eqn:Hm;
        [apply contains_true_iff in Hm | apply contains_false_iff in Hm];
        simpl
    end.


Section Classifier.
Context `{PyRuntime}.


End Classifier.

(** ** Timing percentiles *)

Lemma pick_nearest_rank (v : list Z) (p : Q) :
  v ≠ [] → (0 <= p)%Q → (p <= 1)%Q →
  ∃ x, pick v p = Some x ∧ nearest_rank v p x.
Proof.
  intros Hv Hp0 Hp1. unfold pick, nearest_rank.
  set (m := Z.of_nat (length v) - 1).
  assert (0 ≤ m) as Hm by (destruct v; [done | simpl in *; lia]).
  assert (inject_Z 0 <= inject_Z m)%Q as Hm' by (by rewrite <- Zle_Qle).
  change (inject_Z 0) with 0%Q in Hm'.
  destruct (round_between (p * inject_Z m) 0 m) as [Hlo Hhi].
  { change (inject_Z 0) with 0%Q. nra. }
  { nra. }
  set (r := Py.round (p * inject_Z m)) in *.
  replace (Z.max 0 (Z.min m r)) with r by lia.
  unfold Py.index. destruct (Z.ltb_spec r 0) as [|_]; [lia|].
  destruct (lookup_lt_is_Some_2 v (Z.to_nat r)) as [x Hx]; [lia|].
  exists x. split; [done|]. exists (Z.to_nat r). split; [done|].
  rewrite Z2Nat.id by done. apply round_near.
Qed.



(** ** One file *)

Section PerFile.
Context `{PyRuntime}.

(** What [run_cmd] returns is what it logs; a timed-out call has status 124. *)
Lemma run_cmd_inv (E : Env) (cmd : list string) (t : Z) (tr : list Invocation) :
  ∃ i, run_cmd E cmd t tr = ((inv_code i, inv_stdout i, inv_stderr i, inv_ms i), tr ++ [i])
    ∧ inv_cmd i = cmd
    ∧ (inv_timed_out i = true → inv_code i = 124).
Proof.
  unfold run_cmd. destruct (subprocess_run E (length tr) cmd t) as [[rc so se|so se] ms].
  - eexists (Build_Invocation _ _ _ _ _ _). simpl. done.
  - eexists (Build_Invocation _ _ _ _ _ _). simpl. done.
Qed.

(** The markdown block: nothing runs without the option, two calls run
    with it, and the hashes exist exactly when both calls exit with 0. *)
Lemma run_markdown_inv (args : Args) (E : Env) (p : string) (tr : list Invocation) :
  ∃ md mds, run_markdown args E p tr = (md, tr ++ mds)
    ∧ ((check_markdown args = false ∧ mds = []
        ∧ md_code_a md = 0 ∧ md_code_b md = 0
        ∧ md_out_a md = [] ∧ md_out_b md = [] ∧ md_err_a md = [] ∧ md_err_b md = []
        ∧ md_sha_a md = None ∧ md_sha_b md = None ∧ md_det md = None)
       ∨ (check_markdown args = true
          ∧ ∃ ma mb, mds = [ma; mb]
            ∧ inv_cmd ma = [hwp_bin E; "markdown"; p]
            ∧ inv_cmd mb = [hwp_bin E; "markdown"; p]
            ∧ (inv_timed_out ma = true → inv_code ma = 124)
            ∧ (inv_timed_out mb = true → inv_code mb = 124)
            ∧ md_code_a md = inv_code ma ∧ md_code_b md = inv_code mb
            ∧ md_out_a md = inv_stdout ma ∧ md_out_b md = inv_stdout mb
            ∧ md_err_a md = inv_stderr ma ∧ md_err_b md = inv_stderr mb
            ∧ (let both := (inv_code ma =? 0) && (inv_code mb =? 0) in
               md_sha_a md = (if both then Some (sha256_bytes (inv_stdout ma)) else None)
               ∧ md_sha_b md = (if both then Some (sha256_bytes (inv_stdout mb)) else None)
               ∧ md_det md =
                   (if both
                    then Some (String.eqb (sha256_bytes (inv_stdout ma))
                                          (sha256_bytes (inv_stdout mb)))
                    else None)))).
Proof.
  unfold run_markdown. destruct (check_markdown args).
  - destruct (run_cmd_inv E [hwp_bin E; "markdown"; p] (timeout_s args) tr)
      as (ma & -> & Hca & Hta).
    destruct (run_cmd_inv E [hwp_bin E; "markdown"; p] (timeout_s args) (tr ++ [ma]))
      as (mb & -> & Hcb & Htb).
    eexists _, [ma; mb]. split.
    { by rewrite <- app_assoc. }
    right. split; [done|]. exists ma, mb. simpl. done.
  - eexists _, []. split.
    { by rewrite app_nil_r. }
    left. simpl. done.
Qed.

(** The loop body, read off its three calls and its markdown block. *)
Lemma process_file_inv (args : Args) (E : Env) (p rel : string) (tr : list Invocation) :
  ∃ i a b md mds,
    let ok' :=
      (inv_code i =? 0) && (inv_code a =? 0) && (inv_code b =? 0)
      && (negb (check_markdown args) || ((md_code_a md =? 0) && (md_code_b md =? 0))) in
    (process_file args E p rel tr).2 = tr ++ [i; a; b] ++ mds
    ∧ run_markdown args E p (tr ++ [i; a; b]) = (md, (tr ++ [i; a; b]) ++ mds)
    ∧ inv_cmd i = [hwp_bin E; "info"; p]
    ∧ inv_cmd a = [hwp_bin E; "json"; p]
    ∧ inv_cmd b = [hwp_bin E; "json"; p]
    ∧ (∀ x, x ∈ [i; a; b] → inv_timed_out x = true → inv_code x = 124)
    ∧ relpath (process_file args E p rel tr).1 = rel
    ∧ category (process_file args E p rel tr).1 = dict_get (category_map E) rel
    ∧ ok (process_file args E p rel tr).1 = ok'
    ∧ error (process_file args E p rel tr).1 =
        (if ok' then None
         else Some (classify_error
                      (inv_stderr i ++ inv_stderr a ++ inv_stderr b
                       ++ md_err_a md ++ md_err_b md)
                      (inv_stdout i ++ inv_stdout a ++ inv_stdout b
                       ++ md_out_a md ++ md_out_b md)
                      (Py.or_int (inv_code a) (Py.or_int (inv_code i)
                         (Py.or_int (md_code_a md) (md_code_b md))))))
    ∧ out_sha256_a (process_file args E p rel tr).1 =
        (if ok' then Some (sha256_bytes (inv_stdout a)) else None)
    ∧ out_sha256_b (process_file args E p rel tr).1 =
        (if ok' then Some (sha256_bytes (inv_stdout b)) else None)
    ∧ deterministic (process_file args E p rel tr).1 =
        (if ok'
         then Some (String.eqb (sha256_bytes (inv_stdout a)) (sha256_bytes (inv_stdout b)))
         else None)
    ∧ md_sha256_a (process_file args E p rel tr).1 = md_sha_a md
    ∧ md_sha256_b (process_file args E p rel tr).1 = md_sha_b md
    ∧ md_deterministic (process_file args E p rel tr).1 = md_det md.
Proof.
  unfold process_file.
  destruct (run_cmd_inv E [hwp_bin E; "info"; p] (timeout_s args) tr)
    as (i & -> & Hci & Hti).
  destruct (run_cmd_inv E [hwp_bin E; "json"; p] (timeout_s args) (tr ++ [i]))
    as (a & -> & Hca & Hta).
  destruct (run_cmd_inv E [hwp_bin E; "json"; p] (timeout_s args) ((tr ++ [i]) ++ [a]))
    as (b & -> & Hcb & Htb).
  replace (((tr ++ [i]) ++ [a]) ++ [b]) with (tr ++ [i; a; b])
    by (by rewrite <- !app_assoc).
  destruct (run_markdown_inv args E p (tr ++ [i; a; b])) as (md & mds & Hmd & _).
  rewrite Hmd. exists i, a, b, md, mds. simpl.
  split; [by rewrite <- app_assoc|].
  split; [done|]. do 3 (split; [done|]).
  split; [|done].
  intros x Hx. set_unfold in Hx. destruct Hx as [->|[->|[->|[]]]]; done.
Qed.

End PerFile.

(** ** The loop and the aggregate *)

Lemma count_if_length {A} (P : A → bool) (l : list A) :
  Py.count_if P l = Z.of_nat (length (filter (λ x, P x = true) l)).
Proof.
  unfold Py.count_if.
  enough (∀ acc, fold_left (λ acc x, if P x then acc + 1 else acc) l acc
                 = acc + Z.of_nat (length (filter (λ x, P x = true) l))) as Hgen.
  { by rewrite Hgen. }
  induction l as [|x l IH]; intros acc; simpl.
  - lia.
  - rewrite IH, filter_cons. destruct (P x); simpl; lia.
Qed.

Lemma cat_get_set {V} (k k' : CatKey) (v : V) (d : PerCat V) :
  cat_get k (cat_set k' v d) = if decide (k = k') then v else cat_get k d.
Proof. destruct k, k'; done. Qed.

Lemma cat_key_A (c : option string) : cat_key c = KA ↔ c = Some "A".
Proof. unfold cat_key. repeat case_decide; naive_solver. Qed.

Lemma cat_key_B (c : option string) : cat_key c = KB ↔ c = Some "B".
Proof. unfold cat_key. repeat case_decide; naive_solver. Qed.

Lemma cat_key_C (c : option string) : cat_key c = KC ↔ c = Some "C".
Proof. unfold cat_key. repeat case_decide; naive_solver. Qed.

(** The per-category counters after the loop of lines 318-322. *)
Lemma count_categories_get (rs : list RunResult) (k : CatKey) :
  cat_get k (count_categories rs).1
  = Z.of_nat (length (filter (λ r, cat_key (category r) = k) rs))
  ∧ cat_get k (count_categories rs).2
    = Z.of_nat (length (successes (filter (λ r, cat_key (category r) = k) rs))).
Proof.
  unfold count_categories.
  set (step := λ '(cat_totals, cat_ok) (r : RunResult), _).
  enough (∀ acc : PerCat Z * PerCat Z,
    cat_get k (fold_left step rs acc).1
    = cat_get k acc.1 + Z.of_nat (length (filter (λ r, cat_key (category r) = k) rs))
    ∧ cat_get k (fold_left step rs acc).2
      = cat_get k acc.2
        + Z.of_nat (length (successes (filter (λ r, cat_key (category r) = k) rs))))
    as Hgen.
  { destruct (Hgen (cat_init 0, cat_init 0)) as [-> ->]. by destruct k. }
  induction rs as [|r rs IH]; intros [tot oks]; simpl.
  - lia.
  - match goal with
    | |- context [fold_left step rs ?acc] => destruct (IH acc) as [-> ->]
    end.
    clear IH.
    unfold successes. rewrite filter_cons. simpl. rewrite !cat_get_set.
    destruct (decide (cat_key (category r) = k)) as [Hk|Hk].
    + rewrite decide_True by done. rewrite filter_cons.
      destruct (ok r) eqn:Hok; simpl.
      * rewrite cat_get_set, decide_True by done. subst k. lia.
      * subst k. lia.
    + rewrite decide_False by done.
      destruct (ok r); [rewrite cat_get_set, decide_False by done|]; lia.
Qed.

(** The failure histogram counts, under each key, the failed records with
    that key; a key without such a record is absent. *)
Lemma count_failures_lookup (rs : list RunResult) (k : string) :
  let n := length (filter (λ r, ok r = false ∧ Py.or_str (error r) "unknown" = k) rs) in
  count_failures rs !! k = if decide (n = 0%nat) then None else Some (Z.of_nat n).
Proof.
  unfold count_failures.
  set (step := λ (m : gmap string Z) (r : RunResult), _).
  enough (∀ m : gmap string Z,
    let n := length (filter (λ r, ok r = false ∧ Py.or_str (error r) "unknown" = k) rs) in
    fold_left step rs m !! k
    = if decide (n = 0%nat) then m !! k else Some (default 0 (m !! k) + Z.of_nat n))
    as Hgen.
  { cbv zeta in *. rewrite (Hgen ∅), lookup_empty. case_decide; [done|]; f_equal; simpl; lia. }
  cbv zeta. induction rs as [|r rs IH]; intros m; simpl; [done|].
  rewrite IH. clear IH. rewrite filter_cons. unfold step at 1 2.
  set (n := length (filter _ rs)).
  destruct (ok r) eqn:Hok.
  - destruct (decide (true = false ∧ _)) as [[? _]|_]; done.
  - destruct (decide (false = false ∧ _)) as [[_ Hk]|Hk].
    + rewrite Hk, lookup_insert_eq. simpl length. subst n.
      destruct (decide (length _ = 0%nat)) as [Hn|Hn]; [rewrite Hn|]; simpl; f_equal; lia.
    + rewrite lookup_insert_ne by naive_solver. done.
Qed.

Section Loop.
Context `{PyRuntime}.

(** A call log only grows while a file is processed. *)
Lemma process_file_trace (args : Args) (E : Env) (p rel : string) (tr : list Invocation) :
  tr `prefix_of` (process_file args E p rel tr).2.
Proof.
  destruct (process_file_inv args E p rel tr) as (i & a & b & md & mds & -> & _).
  by apply prefix_app_r.
Qed.

(** The loop adds one record per file, in file order, each made by
    [process_file] from the call log at that point. *)
Lemma run_files_inv (args : Args) (E : Env) (files : list (string * string)) :
  ∀ results tr,
  ∃ new,
    (run_files args E files results tr).1 = results ++ new
    ∧ Forall2 (λ f r, relpath r = f.2) files new
    ∧ tr `prefix_of` (run_files args E files results tr).2
    ∧ ∀ r, r ∈ new →
        ∃ p rel tr0,
          (p, rel) ∈ files
          ∧ r = (process_file args E p rel tr0).1
          ∧ (process_file args E p rel tr0).2
              `prefix_of` (run_files args E files results tr).2.
Proof.
  induction files as [|[p rel] files IH]; intros results tr; simpl.
  - exists []. rewrite app_nil_r. split; [done|]. split; [done|]. split; [done|].
    intros r Hr. by apply elem_of_nil in Hr.
  - destruct (process_file args E p rel tr) as [r tr'] eqn:Hpf.
    destruct (IH (results ++ [r]) tr') as (new & Hres & Hrel & Hpre & Hall).
    exists (r :: new). split; [by rewrite Hres, <- app_assoc|].
    assert (r = (process_file args E p rel tr).1) as Hr by (by rewrite Hpf).
    assert (tr' = (process_file args E p rel tr).2) as Htr by (by rewrite Hpf).
    split.
    { constructor; [|done]. rewrite Hr.
      by destruct (process_file_inv args E p rel tr) as (?&?&?&?&?&?&?&?&?&?&?&->&?). }
    split.
    { etrans; [|exact Hpre]. rewrite Htr. apply process_file_trace. }
    intros r0 [->|Hin]%elem_of_cons.
    + exists p, rel, tr. split; [left|]. split; [done|]. by rewrite <- Htr.
    + destruct (Hall r0 Hin) as (p0 & rel0 & tr0 & Hf & Hr0 & Hp0).
      exists p0, rel0, tr0. split; [by right|]. done.
Qed.

(** What a completed run is made of. *)
Lemma main_inv (args : Args) (E : Env) (code : Z) (rep : Report) :
  main args E = Some (code, Some rep) →
  setup_ok args E
  ∧ run_files args E (resolve_files args E) [] [] = (details rep, rep_trace rep)
  ∧ aggregate (details rep) = Some (rep_aggregate rep)
  ∧ summary rep = summary_of args (rep_aggregate rep)
  ∧ code = (if gate_ok args (rep_aggregate rep) then 0 else 2).
Proof.
  unfold main, setup_ok. cbv zeta.
  destruct (run_files args E (resolve_files args E) [] []) as [results tr] eqn:Hrun.
  destruct (corpus_dir_exists E); cbn [negb]; [|discriminate].
  destruct (resolve_files args E) as [|f files] eqn:Hfiles; [discriminate|].
  destruct (hwp_bin_exists E); cbn [negb]; [|discriminate].
  destruct (aggregate results) as [a|] eqn:Hagg; cbn [mbind option_bind]; [|discriminate].
  intros [= <- <-]. cbn [details rep_trace rep_aggregate summary]. done.
Qed.

(** Every record of a run belongs to a resolved file and was made by
    [process_file] from some call log, whose extension is part of the call
    log of the run. *)
Lemma main_details (args : Args) (E : Env) (code : Z) (rep : Report) :
  main args E = Some (code, Some rep) →
  Forall2 (λ f r, relpath r = f.2) (resolve_files args E) (details rep)
  ∧ ∀ r, r ∈ details rep →
      ∃ p rel tr0,
        (p, rel) ∈ resolve_files args E
        ∧ r = (process_file args E p rel tr0).1
        ∧ (process_file args E p rel tr0).2 `prefix_of` rep_trace rep.
Proof.
  intros (_ & Hrun & _)%main_inv.
  destruct (run_files_inv args E (resolve_files args E) [] []) as (new & Hres & Hrel & _ & Hall).
  rewrite Hrun in Hres, Hall. simpl in Hres, Hall. subst new. done.
Qed.

End Loop.

(** ** The aggregate and the gate *)

Lemma percentiles_is_Some (values : list Z) : is_Some (percentiles values).
Proof.
  destruct values as [|y values]; [done|].
  unfold percentiles. set (v := merge_sort Z.le (y :: values)).
  assert (v ≠ []) as Hv.
  { intros Hnil. pose proof (merge_sort_Permutation Z.le (y :: values)) as Hperm.
    fold v in Hperm. rewrite Hnil in Hperm. by apply Permutation_nil_cons in Hperm. }
  destruct (pick_nearest_rank v (50 # 100) Hv) as (a & -> & _); [done..|].
  destruct (pick_nearest_rank v (95 # 100) Hv) as (b & -> & _); [done..|].
  destruct (pick_nearest_rank v (99 # 100) Hv) as (c & -> & _); [done..|].
  done.
Qed.

Lemma ok_and_deterministic_length (rs : list RunResult) :
  length (filter (λ r, ok_and_deterministic r = true) rs)
  = length (reproducible (successes rs)).
Proof.
  unfold reproducible, successes, ok_and_deterministic.
  induction rs as [|r rs IH]; [done|].
  rewrite !filter_cons.
  destruct (ok r); simpl; [|done].
  rewrite filter_cons. destruct (deterministic r) as [[]|]; simpl; by rewrite IH.
Qed.

(** The aggregate of a list of records, field by field. *)
Lemma aggregate_inv (rs : list RunResult) (a : Aggregate) :
  aggregate rs = Some a →
  a_total a = Z.of_nat (length rs)
  ∧ a_ok_count a = Z.of_nat (length (successes rs))
  ∧ a_det_count a = Z.of_nat (length (reproducible (successes rs)))
  ∧ a_det_rate a = rate (a_det_count a) (a_ok_count a)
  ∧ percentiles (timing_ms <$> successes rs) = Some (a_timing_stats a)
  ∧ a_failures_by_type a = count_failures rs
  ∧ ∀ k,
      cat_get k (a_cat_totals a)
      = Z.of_nat (length (filter (λ r, cat_key (category r) = k) rs))
      ∧ cat_get k (a_cat_ok a)
        = Z.of_nat (length (successes (filter (λ r, cat_key (category r) = k) rs)))
      ∧ cat_get k (a_cat_rates a)
        = four_decimals (rate (cat_get k (a_cat_ok a)) (cat_get k (a_cat_totals a))).
Proof.
  unfold aggregate. cbv zeta. fold (successes rs).
  destruct (percentiles (timing_ms <$> successes rs)) as [ts|]; [|discriminate].
  cbn [mbind option_bind].
  pose proof (count_categories_get rs) as Hcat.
  destruct (count_categories rs) as [tot oks]. intros [= <-]. simpl.
  rewrite !count_if_length, ok_and_deterministic_length.
  do 6 (split; [done|]).
  intros k. destruct (Hcat k) as [Htot Hoks]. simpl in Htot, Hoks.
  do 2 (split; [done|]). by destruct k.
Qed.

Lemma aggregate_is_Some (rs : list RunResult) : is_Some (aggregate rs).
Proof.
  unfold aggregate. cbv zeta.
  destruct (percentiles_is_Some (timing_ms <$> filter (λ r, ok r = true) rs)) as [ts ->].
  cbn [mbind option_bind]. by destruct (count_categories rs).
Qed.

Lemma ltb_false_iff (x y : Q) : Py.ltb x y = false ↔ (y <= x)%Q.
Proof. unfold Py.ltb. rewrite negb_false_iff. apply Qle_bool_iff. Qed.

(** One per-category clause of the gate. *)
Lemma category_clause (rs : list RunResult) (a : Aggregate) (k : CatKey) (s : string)
    (minimum : Q) :
  aggregate rs = Some a →
  (∀ c, cat_key c = k ↔ c = Some s) →
  (0 <? cat_get k (a_cat_totals a)) && Py.ltb (cat_get k (a_cat_rates a)) minimum = false
  ↔ category_meets four_decimals s minimum rs.
Proof.
  intros Hagg Hk. destruct (aggregate_inv rs a Hagg) as (_ & _ & _ & _ & _ & _ & Hcat).
  destruct (Hcat k) as (Htot & Hok & ->). rewrite Hok, Htot. clear Hcat Htot Hok.
  assert (filter (λ r, cat_key (category r) = k) rs = in_category s rs) as ->.
  { apply list_filter_iff. intros r. apply Hk. }
  unfold category_meets, success_rate, rate.
  destruct (in_category s rs) as [|r l] eqn:Hl.
  - simpl. split; [intros _ Hne; by destruct Hne | done].
  - rewrite <- Hl. assert (0 < Z.of_nat (length (in_category s rs))) as Hpos.
    { rewrite Hl. simpl. lia. }
    destruct (Z.ltb_spec 0 (Z.of_nat (length (in_category s rs)))) as [_|]; [|lia].
    destruct (Z.eqb_spec (Z.of_nat (length (in_category s rs))) 0) as [|_]; [lia|].
    rewrite andb_true_l, ltb_false_iff. split; [auto|].
    intros Hmeets. apply Hmeets. by rewrite Hl.
Qed.

(** The determinism rate of the aggregate has the successes, never the
    total, as its denominator. *)
Lemma det_rate_eq (rs : list RunResult) (a : Aggregate) :
  aggregate rs = Some a → a_det_rate a = determinism_rate rs.
Proof.
  intros Hagg. destruct (aggregate_inv rs a Hagg) as (_ & Hok & Hdet & -> & _).
  rewrite Hdet, Hok. unfold rate, determinism_rate.
  destruct (successes rs) as [|r l] eqn:Hs; [done|]. rewrite <- Hs.
  destruct (Z.eqb_spec (Z.of_nat (length (successes rs))) 0) as [Hz|_]; [|done].
  rewrite Hs in Hz. simpl in Hz. lia.
Qed.

(** The gate passes exactly when the thresholds are met, the success rates
    being compared as the summary shows them and the determinism rate as
    computed. *)
Lemma gate_ok_iff (args : Args) (rs : list RunResult) (a : Aggregate) :
  aggregate rs = Some a →
  gate_ok args a = true ↔ thresholds_met four_decimals args rs.
Proof.
  intros Hagg.
  pose proof (category_clause rs a KA "A" (min_success_a args) Hagg cat_key_A) as HA.
  pose proof (category_clause rs a KB "B" (min_success_b args) Hagg cat_key_B) as HB.
  pose proof (category_clause rs a KC "C" (min_success_c args) Hagg cat_key_C) as HC.
  destruct (aggregate_inv rs a Hagg) as (Htot & _).
  assert (Py.ltb (a_det_rate a) (min_deterministic_rate args) = false
          ↔ (min_deterministic_rate args <= determinism_rate rs)%Q) as HD.
  { by rewrite ltb_false_iff, (det_rate_eq rs a Hagg). }
  assert (negb (min_corpus_size args =? 0) && (a_total a <? min_corpus_size args) = false
          ↔ min_corpus_size args ≤ Z.of_nat (length rs)) as HS.
  { rewrite Htot. destruct (Z.eqb_spec (min_corpus_size args) 0) as [->|_]; simpl.
    - split; [lia | done].
    - rewrite Z.ltb_ge. done. }
  unfold thresholds_met. rewrite <- HA, <- HB, <- HC, <- HD, <- HS.
  unfold gate_ok. cbv zeta.
  destruct (negb (min_corpus_size args =? 0) && (a_total a <? min_corpus_size args));
    destruct ((0 <? cat_get KA (a_cat_totals a))
              && Py.ltb (cat_get KA (a_cat_rates a)) (min_success_a args));
    destruct ((0 <? cat_get KB (a_cat_totals a))
              && Py.ltb (cat_get KB (a_cat_rates a)) (min_success_b args));
    destruct ((0 <? cat_get KC (a_cat_totals a))
              && Py.ltb (cat_get KC (a_cat_rates a)) (min_success_c args));
    destruct (Py.ltb (a_det_rate a) (min_deterministic_rate args));
    clear; intuition congruence.
Qed.

Section Run.
Context `{PyRuntime}.

(** After a successful setup the run completes: [main] raises nothing and
    leaves a report. *)
Lemma main_completes (args : Args) (E : Env) :
  setup_ok args E → ∃ code rep, main args E = Some (code, Some rep).
Proof.
  intros (Hdir & Hfiles & Hbin). unfold main. cbv zeta.
  destruct (run_files args E (resolve_files args E) [] []) as [results tr].
  rewrite Hdir, Hbin. cbn [negb].
  destruct (resolve_files args E) as [|f files]; [done|].
  destruct (aggregate_is_Some results) as [a ->]. cbn [mbind option_bind]. eauto.
Qed.

(** A failed setup ends the run with exit code 3 and without report. *)
Lemma main_setup_error (args : Args) (E : Env) :
  ¬ setup_ok args E → main args E = Some (3, None).
Proof.
  unfold setup_ok, main. cbv zeta. intros Hno.
  destruct (corpus_dir_exists E); [|done]. cbn [negb].
  destruct (resolve_files args E) as [|f files]; [done|].
  destruct (hwp_bin_exists E); [|done]. by destruct Hno.
Qed.

(** The exit code of a completed run: 0 when the gate passes, 2 otherwise,
    the gate being [thresholds_met] on the rates rounded to four decimals. *)
Lemma main_exit_code (args : Args) (E : Env) (code : Z) (rep : Report) :
  main args E = Some (code, Some rep) →
  (code = 0 ∨ code = 2) ∧ (code = 0 ↔ thresholds_met four_decimals args (details rep)).
Proof.
  intros (_ & _ & Hagg & _ & ->)%main_inv.
  rewrite <- (gate_ok_iff args (details rep) (rep_aggregate rep) Hagg).
  destruct (gate_ok args (rep_aggregate rep)); split; auto; split; done.
Qed.

End Run.

Lemma filter_none {A} (P : A → Prop) `{!∀ x, Decision (P x)} (l : list A) :
  (∀ x, x ∈ l → ¬ P x) → filter P l = [].
Proof.
  induction l as [|x l IH]; intros Hall; [done|].
  rewrite filter_cons_False by (apply Hall; left).
  apply IH. intros y Hy. apply Hall. by right.
Qed.

(** ** Every processed file *)

Section Files.
Context `{PyRuntime}.

Lemma classify_error_in_kinds (stderr stdout : list Byte.byte) (code : Z) :
  classify_error stderr stdout code ∈ error_kinds.
Proof.
  unfold classify_error, error_kinds. cbv zeta.
  case_contains; destruct (code =? 124); set_solver.
Qed.



Lemma or_int_dominant (a i ma mb : Z) :
  snd <$> list_find (λ c, c ≠ 0) [a; i; ma; mb] = Some 124 →
  Py.or_int a (Py.or_int i (Py.or_int ma mb)) = 124.
Proof.
  unfold Py.or_int. simpl.
  destruct (Z.eqb_spec a 0), (Z.eqb_spec i 0), (Z.eqb_spec ma 0);
    repeat case_decide; simpl; intros [=]; lia.
Qed.

(** The calls, the flag and the error of one file. *)
Lemma process_file_calls (args : Args) (E : Env) (p rel : string) (tr : list Invocation) :
  let r := (process_file args E p rel tr).1 in
  ∃ i a b mds,
    let invs := [i; a; b] ++ mds in
    (process_file args E p rel tr).2 = tr ++ invs
    ∧ inv_cmd <$> invs = expected_commands args E p
    ∧ (∀ x, x ∈ invs → inv_timed_out x = true → inv_code x = 124)
    ∧ relpath r = rel
    ∧ (ok r = true ↔ Forall (λ x, inv_code x = 0) invs)
    ∧ (ok r = true → error r = None)
    ∧ (ok r = false →
       ∃ code, error r = Some (classify_error (concat (inv_stderr <$> invs))
                                 (concat (inv_stdout <$> invs)) code)
         ∧ (dominant_status invs = Some 124 → code = 124))
    ∧ out_sha256_a r = (if ok r then Some (sha256_bytes (inv_stdout a)) else None)
    ∧ out_sha256_b r = (if ok r then Some (sha256_bytes (inv_stdout b)) else None)
    ∧ deterministic r =
        (if ok r
         then Some (String.eqb (sha256_bytes (inv_stdout a)) (sha256_bytes (inv_stdout b)))
         else None)
    ∧ match mds with
      | [ma; mb] =>
          check_markdown args = true
          ∧ (let both := (inv_code ma =? 0) && (inv_code mb =? 0) in
             md_sha256_a r = (if both then Some (sha256_bytes (inv_stdout ma)) else None)
             ∧ md_sha256_b r = (if both then Some (sha256_bytes (inv_stdout mb)) else None)
             ∧ md_deterministic r =
                 (if both
                  then Some (String.eqb (sha256_bytes (inv_stdout ma))
                                        (sha256_bytes (inv_stdout mb)))
                  else None))
      | _ =>
          check_markdown args = false ∧ mds = []
          ∧ md_sha256_a r = None ∧ md_sha256_b r = None ∧ md_deterministic r = None
      end.
Proof.
  intros r. subst r.
  destruct (process_file_inv args E p rel tr)
    as (i & a & b & md & mds & Htr & Hmd & Hci & Hca & Hcb & Hto & Hrel & _ & Hok & Herr
        & Hsa & Hsb & Hdet & Hma & Hmb & Hmdet).
  cbv zeta in *.
  destruct (run_markdown_inv args E p (tr ++ [i; a; b])) as (md' & mds' & Hmd' & Hcases).
  rewrite Hmd in Hmd'. injection Hmd' as <- Hmds. apply app_inv_head in Hmds. subst mds'.
  exists i, a, b, mds. rewrite Hsa, Hsb, Hdet, Hma, Hmb, Hmdet, Herr, Hok, Hrel.
  clear Hsa Hsb Hdet Hma Hmb Hmdet Herr Hok Hrel Hmd.
  split; [done|]. unfold expected_commands.
  destruct Hcases
    as [(Hck & -> & Ha0 & Hb0 & Hoa & Hob & Hea & Heb & -> & -> & ->)
       |(Hck & ma & mb & -> & Hcma & Hcmb & Htma & Htmb & Ha0 & Hb0 & Hoa & Hob & Hea & Heb
         & -> & -> & ->)];
    rewrite Hck, Ha0, Hb0, Hoa, Hob, Hea, Heb; simpl.
  - rewrite Hci, Hca, Hcb, !app_nil_r.
    split; [done|]. split; [done|]. split; [done|].
    split.
    { rewrite !Forall_cons, Forall_nil, !andb_true_iff, !Z.eqb_eq. tauto. }
    destruct ((inv_code i =? 0) && (inv_code a =? 0) && (inv_code b =? 0) && true) eqn:Hok.
    + do 2 (split; [done|]). done.
    + split; [done|]. split; [|done]. intros _. eexists. split; [done|].
      intros Hdom. apply or_int_dominant. revert Hdom. simpl.
      repeat case_decide; simpl; try done; congruence.
  - rewrite Hci, Hca, Hcb, Hcma, Hcmb, !app_nil_r.
    split; [done|]. split.
    { intros x Hx Hxt. set_unfold in Hx.
      destruct Hx as [->|[->|[->|[->|[->|[]]]]]]; auto;
        apply Hto; [set_solver|done|set_solver|done|set_solver|done]. }
    split; [done|]. split.
    { rewrite !Forall_cons, Forall_nil, !andb_true_iff, !Z.eqb_eq. tauto. }
    destruct ((inv_code i =? 0) && (inv_code a =? 0) && (inv_code b =? 0)
              && ((inv_code ma =? 0) && (inv_code mb =? 0))) eqn:Hok.
    + do 2 (split; [done|]). done.
    + split; [done|]. split; [|done]. intros _. eexists. split; [done|].
      intros Hdom. apply or_int_dominant. revert Hdom. simpl.
      repeat case_decide; simpl; try done; congruence.
Qed.

(** A property that [process_file] gives every record holds of every
    processed file of a run. *)
Lemma every_file_intro (args : Args) (E : Env) (code : Z) (rep : Report)
    (P : string → RunResult → list Invocation → Prop) :
  (∀ p rel tr0 invs,
     (process_file args E p rel tr0).2 = tr0 ++ invs →
     P p (process_file args E p rel tr0).1 invs) →
  main args E = Some (code, Some rep) →
  every_file args E rep P.
Proof.
  intros HP Hmain. destruct (main_details args E code rep Hmain) as [_ Hall].
  unfold every_file. apply Forall_forall. intros r Hr.
  destruct (Hall r Hr) as (p & rel & tr0 & Hf & -> & Hpre).
  destruct (process_file_calls args E p rel tr0) as (i & a & b & mds & Htr & _ & _ & Hrel & _).
  cbv zeta in *. rewrite Hrel. exists p, tr0, ([i; a; b] ++ mds).
  split; [done|]. split.
  { rewrite <- Htr. by destruct (process_file args E p rel tr0). }
  split; [by rewrite <- Htr|]. by apply HP.
Qed.





(** C6, as the code has it. In every run, for every processed file: the
    hashes and the determinism verdict of the structured output are computed
    when the file succeeded and are null when it failed; the markdown hashes
    and verdict are computed exactly when the markdown check is enabled and
    both markdown calls exited with status 0, whatever the other calls did,
    and are null otherwise. *)
Theorem hashes_guarded (args : Args) (E : Env) (code : Z) (rep : Report) :
  main args E = Some (code, Some rep) →
  every_file args E rep
    (λ _ r invs,
       (ok r = false →
        out_sha256_a r = None ∧ out_sha256_b r = None ∧ deterministic r = None)
       ∧ (ok r = true →
          ∃ a b, invs !! 1%nat = Some a ∧ invs !! 2%nat = Some b
            ∧ out_sha256_a r = Some (sha256_bytes (inv_stdout a))
            ∧ out_sha256_b r = Some (sha256_bytes (inv_stdout b))
            ∧ deterministic r =
                Some (String.eqb (sha256_bytes (inv_stdout a)) (sha256_bytes (inv_stdout b))))
       ∧ ((∃ ma mb, check_markdown args = true
             ∧ invs !! 3%nat = Some ma ∧ invs !! 4%nat = Some mb
             ∧ inv_code ma = 0 ∧ inv_code mb = 0
             ∧ md_sha256_a r = Some (sha256_bytes (inv_stdout ma))
             ∧ md_sha256_b r = Some (sha256_bytes (inv_stdout mb))
             ∧ md_deterministic r =
                 Some (String.eqb (sha256_bytes (inv_stdout ma))
                                  (sha256_bytes (inv_stdout mb))))
          ∨ ((check_markdown args = false
              ∨ ∃ m, (invs !! 3%nat = Some m ∨ invs !! 4%nat = Some m) ∧ inv_code m ≠ 0)
             ∧ md_sha256_a r = None ∧ md_sha256_b r = None ∧ md_deterministic r = None))).
Proof.
  apply every_file_intro. intros p rel tr0 invs Htr.
  destruct (process_file_calls args E p rel tr0)
    as (i & a & b & mds & Htr' & _ & _ & _ & _ & _ & _ & Hsa & Hsb & Hdet & Hmd).
  cbv zeta in *. rewrite Htr in Htr'. apply app_inv_head in Htr'. subst invs.
  set (r := (process_file args E p rel tr0).1) in *.
  rewrite Hsa, Hsb, Hdet. split; [|split].
  - by intros ->.
  - intros ->. by exists a, b.
  - destruct mds as [|ma [|mb [|? ?]]];
      try (destruct Hmd as (Hck & [=] & _); fail);
      try (right; destruct Hmd as (Hck & _ & -> & -> & ->); by auto).
    destruct Hmd as (Hck & -> & -> & ->).
    destruct (Z.eqb_spec (inv_code ma) 0) as [Hma|Hma];
      [destruct (Z.eqb_spec (inv_code mb) 0) as [Hmb|Hmb]|]; simpl.
    + left. by exists ma, mb.
    + right. split; [|done]. right. exists mb. auto.
    + right. split; [|done]. right. exists ma. auto.
Qed.

(** C8. In every run, for every processed file: the error kind of its
    record is null when the record is successful, and is one of the five
    kinds when it is not; and the failure histogram of the summary has no
    "unknown" key. *)
Theorem error_kind_iff_failed (args : Args) (E : Env) (code : Z) (rep : Report) :
  main args E = Some (code, Some rep) →
  every_file args E rep
    (λ _ r _,
       (ok r = true → error r = None)
       ∧ (ok r = false → ∃ kind, error r = Some kind ∧ kind ∈ error_kinds))
  ∧ failures_by_type (summary rep) !! "unknown" = None.
Proof.
  intros Hmain.
  assert (every_file args E rep
            (λ _ r _,
               (ok r = true → error r = None)
               ∧ (ok r = false → ∃ kind, error r = Some kind ∧ kind ∈ error_kinds)))
    as Hevery.
  { revert Hmain. apply every_file_intro. intros p rel tr0 invs Htr.
    destruct (process_file_calls args E p rel tr0)
      as (i & a & b & mds & _ & _ & _ & _ & _ & Hnone & Herr & _).
    cbv zeta in *. split; [done|]. intros Hr. destruct (Herr Hr) as (c & -> & _).
    eexists. split; [done|]. apply classify_error_in_kinds. }
  split; [done|].
  destruct (main_inv args E code rep Hmain) as (_ & _ & Hagg & -> & _).
  destruct (aggregate_inv _ _ Hagg) as (_ & _ & _ & _ & _ & Hfail & _).
  cbn [failures_by_type summary_of]. rewrite Hfail.
  pose proof (count_failures_lookup (details rep) "unknown") as Hlook.
  cbv zeta in Hlook. rewrite Hlook. clear Hlook.
  rewrite decide_True; [done|].
  rewrite filter_none; [done|].
  intros r Hr [Hfailed Hkey].
  unfold every_file in Hevery. rewrite Forall_forall in Hevery.
  destruct (Hevery r Hr) as (_ & _ & _ & _ & _ & _ & _ & Hkind).
  destruct (Hkind Hfailed) as (kind & Hk & Hin). rewrite Hk in Hkey.
  unfold error_kinds in Hin. set_unfold in Hin.
  destruct Hin as [->|[->|[->|[->|[->|[]]]]]]; discriminate.
Qed.

End Files.

(** ** The verdict of a run *)

Section Verdict.
Context `{PyRuntime}.



End Verdict.

(** ** Corpus enumeration *)



Lemma manifest_files_filter (E : Env) (keys : list string) :
  manifest_files E keys
  = (λ rel, (path_join E rel, rel))
      <$> filter (λ rel, fs_exists E (path_join E rel) && fs_is_file E (path_join E rel) = true)
            keys.
Proof.
  unfold manifest_files. set (step := λ (files : list (string * string)) (rel : string), _).
  enough (∀ acc,
    fold_left step keys acc
    = acc ++ ((λ rel, (path_join E rel, rel))
               <$> filter (λ rel, fs_exists E (path_join E rel)
                                  && fs_is_file E (path_join E rel) = true) keys)) as Hgen.
  { by rewrite Hgen. }
  induction keys as [|rel keys IH]; intros acc; simpl.
  - by rewrite app_nil_r.
  - rewrite IH, filter_cons. unfold step at 1.
    destruct (fs_exists E (path_join E rel) && fs_is_file E (path_join E rel)); simpl.
    + by rewrite <- app_assoc.
    + done.
Qed.

Lemma scan_files_filter (E : Env) (files : list (string * string)) :
  scan_files E files = files ++ scanned_files E (merge_sort path_le (rglob_hwp E)).
Proof.
  unfold scan_files, scanned_files. generalize (merge_sort path_le (rglob_hwp E)).
  intros scan. revert files. induction scan as [|parts scan IH]; intros files; simpl.
  - by rewrite app_nil_r.
  - rewrite IH, filter_cons.
    destruct (fs_is_file E (path_join E (as_posix parts))); simpl.
    + by rewrite <- app_assoc.
    + done.
Qed.


(** ** The rounded comparison *)


(** ** Concrete runs *)

(** With [info] killed at the deadline and the structured output fine, the
    record is a timeout. *)
Example info_timeout_recorded :
  ∃ rep r,
    main (H := ascii_runtime) default_args env_info_timeout_only = Some (2, Some rep)
    ∧ details rep = [r] ∧ ok r = false ∧ error r = Some "timeout".
Proof. eexists _, _. split; [vm_compute; reflexivity|]. done. Qed.

(** With the second structured-output call alone killed at the deadline,
    the record is a parse error: the status of that call is not among those
    the classifier is given. *)
Example second_json_timeout_recorded_as_parse_error :
  ∃ rep r,
    main (H := ascii_runtime) default_args env_second_json_timeout = Some (2, Some rep)
    ∧ details rep = [r] ∧ timed_out_file (rep_trace rep)
    ∧ ok r = false ∧ error r = Some "parse_error".
Proof.
  eexists _, _. split; [vm_compute; reflexivity|]. split; [done|]. split; [|done].
  eexists. split; [do 2 right; left|]. done.
Qed.

(** The scan resolves the regular files in path order; the manifest
    resolves its existing entries in its own order. *)
Example scan_resolved :
  find_corpus_files env_scan (category_map env_scan)
  = [("/repo/corpus/local/a.hwp", "a.hwp"); ("/repo/corpus/local/sub/b.hwp", "sub/b.hwp")].
Proof. vm_compute. reflexivity. Qed.

Example manifest_resolved :
  find_corpus_files env_manifest (category_map env_manifest)
  = [("/repo/corpus/local/z.hwp", "z.hwp"); ("/repo/corpus/local/a.hwp", "a.hwp")].
Proof. vm_compute. reflexivity. Qed.

Example percentiles_of_four : percentiles [5; 1; 4; 2] = Some {| p50 := 4; p95 := 5; p99 := 5 |}.
Proof. vm_compute. reflexivity. Qed.








(** C6 at a concrete run: the markdown check is on and [info] fails. *)
Lemma hashes_guarded_witness :
  ∃ code rep,
    main (H := ascii_runtime) args_markdown env_info_fails = Some (code, Some rep)
    ∧ every_file (H := ascii_runtime) args_markdown env_info_fails rep
        (λ _ r invs,
           (ok r = false →
            out_sha256_a r = None ∧ out_sha256_b r = None ∧ deterministic r = None)
           ∧ (ok r = true →
              ∃ a b, invs !! 1%nat = Some a ∧ invs !! 2%nat = Some b
                ∧ out_sha256_a r = Some (sha256_bytes (H := ascii_runtime) (inv_stdout a))
                ∧ out_sha256_b r = Some (sha256_bytes (H := ascii_runtime) (inv_stdout b))
                ∧ deterministic r =
                    Some (String.eqb (sha256_bytes (H := ascii_runtime) (inv_stdout a))
                                     (sha256_bytes (H := ascii_runtime) (inv_stdout b))))
           ∧ ((∃ ma mb, check_markdown args_markdown = true
                 ∧ invs !! 3%nat = Some ma ∧ invs !! 4%nat = Some mb
                 ∧ inv_code ma = 0 ∧ inv_code mb = 0
                 ∧ md_sha256_a r = Some (sha256_bytes (H := ascii_runtime) (inv_stdout ma))
                 ∧ md_sha256_b r = Some (sha256_bytes (H := ascii_runtime) (inv_stdout mb))
                 ∧ md_deterministic r =
                     Some (String.eqb (sha256_bytes (H := ascii_runtime) (inv_stdout ma))
                                      (sha256_bytes (H := ascii_runtime) (inv_stdout mb))))
              ∨ ((check_markdown args_markdown = false
                  ∨ ∃ m, (invs !! 3%nat = Some m ∨ invs !! 4%nat = Some m) ∧ inv_code m ≠ 0)
                 ∧ md_sha256_a r = None ∧ md_sha256_b r = None
                 ∧ md_deterministic r = None))).
Proof.
  eexists _, _. split; [vm_compute; reflexivity|].
  apply (hashes_guarded (H := ascii_runtime) args_markdown env_info_fails 2).
  vm_compute. reflexivity.
Defined.

(** Against C6 for the markdown fields: the file failed, because [info] exited
    with 1, and its record carries the markdown hashes and verdict. *)
Lemma markdown_hashes_of_failed_file_counterexample :
  ∃ rep r,
    main (H := ascii_runtime) args_markdown env_info_fails = Some (2, Some rep)
    ∧ details rep = [r]
    ∧ ok r = false
    ∧ md_sha256_a r ≠ None ∧ md_sha256_b r ≠ None ∧ md_deterministic r = Some true
    ∧ ¬ no_hashes r.
Proof.
  eexists _, _. split; [vm_compute; reflexivity|].
  do 5 (split; [done|]). intros (_ & _ & _ & Hmd & _). discriminate Hmd.
Qed.

(** C8 at a concrete run, with a failed file. *)
Lemma error_kind_iff_failed_witness :
  ∃ code rep,
    main (H := ascii_runtime) args_two_thirds env_two_of_three = Some (code, Some rep)
    ∧ every_file (H := ascii_runtime) args_two_thirds env_two_of_three rep
        (λ _ r _,
           (ok r = true → error r = None)
           ∧ (ok r = false → ∃ kind, error r = Some kind ∧ kind ∈ error_kinds))
    ∧ failures_by_type (summary rep) !! "unknown" = None.
Proof.
  eexists _, _. split; [vm_compute; reflexivity|].
  apply (error_kind_iff_failed (H := ascii_runtime) args_two_thirds env_two_of_three 0).
  vm_compute. reflexivity.
Defined.

(** ** The end-to-end runs of the specification *)

(** Fifty files, all successful and deterministic, against a minimum corpus
    size of 100: the gate fails. *)
Example fifty_files_below_minimum :
  ∃ rep,
    main (H := ascii_runtime) default_args env_fifty = Some (2, Some rep)
    ∧ length (details rep) = 50%nat
    ∧ successes (details rep) = details rep
    ∧ reproducible (details rep) = details rep.
Proof. eexists. split; [vm_compute; reflexivity|]. by vm_compute. Qed.

(** 78 of 80 in A pass the 0.95 of A, 16 of 20 in B miss the 0.85 of B: the
    gate fails. *)
Example category_B_below_minimum :
  ∃ rep,
    main (H := ascii_runtime) default_args env_120 = Some (2, Some rep)
    ∧ (success_rate (in_category "A" (details rep)) == 78 # 80)%Q
    ∧ (success_rate (in_category "B" (details rep)) == 16 # 20)%Q
    ∧ (success_rate (in_category "C" (details rep)) == 1)%Q.
Proof. eexists. split; [vm_compute; reflexivity|]. by vm_compute. Qed.

(** * Further properties of the gate script *)

(** ** The shape of a run *)

Section RunShape.
Context `{PyRuntime}.

(** The setup either passes or it does not. *)
Lemma setup_ok_cases (args : Args) (E : Env) : setup_ok args E ∨ ¬ setup_ok args E.
Proof.
  unfold setup_ok.
  destruct (corpus_dir_exists E), (resolve_files args E), (hwp_bin_exists E);
    (left; done) || (right; intros (? & ? & ?); done).
Qed.

(** A run that leaves no report ended with exit code 3. *)
Lemma main_without_report (args : Args) (E : Env) (code : Z) :
  main args E = Some (code, None) → code = 3.
Proof.
  intros Hmain. destruct (setup_ok_cases args E) as [Hs|Hs].
  - destruct (main_completes args E Hs) as (c & r & Hrun). congruence.
  - rewrite (main_setup_error args E Hs) in Hmain. congruence.
Qed.


(** The size and the timing of a record. *)
Lemma process_file_size_timing (args : Args) (E : Env) (p rel : string)
    (tr : list Invocation) (invs : list Invocation) :
  (process_file args E p rel tr).2 = tr ++ invs →
  size_bytes (process_file args E p rel tr).1 = st_size E p
  ∧ category (process_file args E p rel tr).1 = dict_get (category_map E) rel
  ∧ timing_ms (process_file args E p rel tr).1 = total_ms invs.
Proof.
  unfold process_file, run_markdown.
  destruct (run_cmd_inv E [hwp_bin E; "info"; p] (timeout_s args) tr)
    as (i & -> & _).
  destruct (run_cmd_inv E [hwp_bin E; "json"; p] (timeout_s args) (tr ++ [i]))
    as (a & -> & _).
  destruct (run_cmd_inv E [hwp_bin E; "json"; p] (timeout_s args) ((tr ++ [i]) ++ [a]))
    as (b & -> & _).
  destruct (check_markdown args).
  - destruct (run_cmd_inv E [hwp_bin E; "markdown"; p] (timeout_s args)
                (((tr ++ [i]) ++ [a]) ++ [b])) as (ma & -> & _).
    destruct (run_cmd_inv E [hwp_bin E; "markdown"; p] (timeout_s args)
                ((((tr ++ [i]) ++ [a]) ++ [b]) ++ [ma])) as (mb & -> & _).
    cbn [fst snd size_bytes category timing_ms ms_m1 ms_m2].
    rewrite <- !app_assoc. intros <-%app_inv_head. simpl. split; [done|]. split; [done|]. lia.
  - cbn [fst snd size_bytes category timing_ms ms_m1 ms_m2].
    rewrite <- !app_assoc. intros <-%app_inv_head. simpl. split; [done|]. split; [done|]. lia.
Qed.

(** X2. A run leaves one record per resolved file, in the order of the
    resolved list; each record carries the relative path of its file, the
    size of the file, and the category the mapping gives that path. *)
Theorem details_follow_files (args : Args) (E : Env) (code : Z) (rep : Report) :
  main args E = Some (code, Some rep) →
  relpath <$> details rep = (resolve_files args E).*2
  ∧ every_file args E rep
      (λ p r _,
         size_bytes r = st_size E p
         ∧ category r = dict_get (category_map E) (relpath r)).
Proof.
  intros Hmain. split.
  - destruct (main_details args E code rep Hmain) as [Hrel _].
    induction Hrel as [|f r fs rs Hr _ IH]; [done|]. rewrite !fmap_cons, Hr, IH. done.
  - pose proof (every_file_intro args E code rep
                  (λ p r invs, ∃ rel, relpath r = rel ∧ size_bytes r = st_size E p
                                      ∧ category r = dict_get (category_map E) rel))
      as Hevery.
    eapply Forall_impl; [apply Hevery; [|done]|].
    + intros p rel tr0 invs Htr.
      destruct (process_file_size_timing args E p rel tr0 invs Htr) as (Hs & Hc & _).
      exists rel. split; [|done].
      by destruct (process_file_calls args E p rel tr0) as (?&?&?&?&?&?&?&?&?).
    + intros r (p & tr0 & invs & Hf & Hpf & Hpre & rel & <- & Hs & Hc).
      exists p, tr0, invs. done.
Qed.

(** X3. The timing of a record is the sum of the elapsed times of the calls
    made for its file: three, or five with the markdown check. *)
Theorem timing_is_sum_of_calls (args : Args) (E : Env) (code : Z) (rep : Report) :
  main args E = Some (code, Some rep) →
  every_file args E rep
    (λ _ r invs,
       timing_ms r = total_ms invs
       ∧ length invs = (if check_markdown args then 5 else 3)%nat).
Proof.
  apply every_file_intro. intros p rel tr0 invs Htr.
  destruct (process_file_size_timing args E p rel tr0 invs Htr) as (_ & _ & Ht).
  split; [done|].
  destruct (process_file_calls args E p rel tr0) as (i & a & b & mds & Htr' & Hcmd & _).
  cbv zeta in *. rewrite Htr in Htr'. apply app_inv_head in Htr'. subst invs.
  apply (f_equal length) in Hcmd. rewrite length_fmap in Hcmd. rewrite Hcmd.
  unfold expected_commands. by destruct (check_markdown args).
Qed.

(** The calls of the loop, file after file. *)
Lemma run_files_trace (args : Args) (E : Env) (files : list (string * string)) :
  ∀ results tr,
  ∃ calls,
    (run_files args E files results tr).2 = tr ++ calls
    ∧ inv_cmd <$> calls = concat ((λ f, expected_commands args E f.1) <$> files).
Proof.
  induction files as [|[p rel] files IH]; intros results tr; simpl.
  - exists []. by rewrite app_nil_r.
  - destruct (process_file args E p rel tr) as [r tr'] eqn:Hpf.
    destruct (process_file_calls args E p rel tr) as (i & a & b & mds & Htr & Hcmd & _).
    cbv zeta in *. rewrite Hpf in Htr. simpl in Htr. subst tr'.
    match goal with
    | |- context [run_files args E files ?rs ?t] =>
        destruct (IH rs t) as (calls & Hrest & Hcalls)
    end.
    rewrite Hrest. exists (([i; a; b] ++ mds) ++ calls).
    split; [by rewrite <- !app_assoc|].
    by rewrite fmap_app, Hcmd, Hcalls.
Qed.

(** X4. The subprocess calls of a run are, file after file in the order of
    the resolved list, the info call, the two structured-output calls and,
    with the markdown check, the two markdown calls of that file: nothing is
    retried, skipped or reordered. *)
Theorem calls_of_a_run (args : Args) (E : Env) (code : Z) (rep : Report) :
  main args E = Some (code, Some rep) →
  inv_cmd <$> rep_trace rep
  = concat ((λ f, expected_commands args E f.1) <$> resolve_files args E)
  ∧ length (rep_trace rep)
    = ((if check_markdown args then 5 else 3) * length (resolve_files args E))%nat.
Proof.
  intros (_ & Hrun & _)%main_inv.
  destruct (run_files_trace args E (resolve_files args E) [] []) as (calls & Htr & Hcalls).
  rewrite Hrun in Htr. simpl in Htr. subst calls. split; [done|].
  apply (f_equal length) in Hcalls. rewrite length_fmap in Hcalls. rewrite Hcalls.
  generalize (resolve_files args E). intros files.
  induction files as [|f files IH]; [simpl; lia|].
  rewrite fmap_cons. cbn [concat]. rewrite length_app, IH. unfold expected_commands.
  destruct (check_markdown args); simpl; lia.
Qed.

End RunShape.

(** ** Counts, histogram and rates *)

Lemma bucket_partition (rs : list RunResult) :
  (length (filter (λ r, cat_key (category r) = KA) rs)
   + length (filter (λ r, cat_key (category r) = KB) rs)
   + length (filter (λ r, cat_key (category r) = KC) rs)
   + length (filter (λ r, cat_key (category r) = K_) rs))%nat
  = length rs.
Proof.
  induction rs as [|r rs IH]; [done|].
  rewrite !filter_cons. destruct (cat_key (category r)); simpl; lia.
Qed.

Lemma successes_failures_length (rs : list RunResult) :
  (length (successes rs) + length (failures rs))%nat = length rs.
Proof.
  unfold successes, failures. induction rs as [|r rs IH]; [done|].
  rewrite !filter_cons. destruct (ok r); simpl; lia.
Qed.

Lemma successes_filter_comm (P : RunResult → Prop) `{!∀ r, Decision (P r)}
    (rs : list RunResult) :
  successes (filter P rs) = filter P (successes rs).
Proof.
  unfold successes. induction rs as [|r rs IH]; [done|].
  rewrite !filter_cons. destruct (decide (P r)), (decide (ok r = true));
    rewrite ?filter_cons; repeat case_decide; try done; by rewrite IH.
Qed.

Section Counts.
Context `{PyRuntime}.

(** X5. In the summary of a run the total is the number of resolved files;
    successes and failures add up to it; every record is counted in exactly
    one of the four buckets A, B, C, unlabeled, a failed one too; and in
    every bucket the successes are at most the total. *)
Theorem summary_counts (args : Args) (E : Env) (code : Z) (rep : Report) :
  main args E = Some (code, Some rep) →
  let s := summary rep in
  total_files s = Z.of_nat (length (resolve_files args E))
  ∧ s_ok s = Z.of_nat (length (successes (details rep)))
  ∧ s_failed s = Z.of_nat (length (failures (details rep)))
  ∧ s_ok s + s_failed s = total_files s
  ∧ at_A (s_totals s) + at_B (s_totals s) + at_C (s_totals s) + at_U (s_totals s)
    = total_files s
  ∧ at_A (s_cat_ok s) + at_B (s_cat_ok s) + at_C (s_cat_ok s) + at_U (s_cat_ok s) = s_ok s
  ∧ at_U (s_totals s) = Z.of_nat (length (unlabeled (details rep)))
  ∧ ∀ k, 0 ≤ cat_get k (s_cat_ok s) ≤ cat_get k (s_totals s).
Proof.
  intros Hmain s.
  destruct (main_details args E code rep Hmain) as [Hlen%Forall2_length _].
  destruct (main_inv args E code rep Hmain) as (_ & _ & Hagg & Hsum & _).
  destruct (aggregate_inv _ _ Hagg) as (Htot & Hok & _ & _ & _ & _ & Hcat).
  subst s. rewrite Hsum. cbn [total_files s_ok s_failed s_totals s_cat_ok summary_of].
  rewrite Htot, Hok. pose proof (successes_failures_length (details rep)) as Hsf.
  pose proof (bucket_partition (details rep)) as Hpart.
  pose proof (bucket_partition (successes (details rep))) as Hpart'.
  destruct (Hcat KA) as (HtA & HoA & _), (Hcat KB) as (HtB & HoB & _),
    (Hcat KC) as (HtC & HoC & _), (Hcat K_) as (HtU & HoU & _).
  simpl in HtA, HtB, HtC, HtU, HoA, HoB, HoC, HoU.
  rewrite successes_filter_comm in HoA, HoB, HoC, HoU.
  split; [lia|]. split; [done|]. split; [lia|]. split; [lia|].
  split; [lia|]. split; [lia|]. split; [done|].
  intros k. destruct (Hcat k) as (-> & -> & _).
  split; [lia|]. apply inj_le. unfold successes. apply length_filter.
Qed.

End Counts.

Lemma hist_sum_insert_fresh (m : gmap string Z) (k : string) (x : Z) :
  m !! k = None → hist_sum (<[k := x]> m) = x + hist_sum m.
Proof.
  intros Hk. unfold hist_sum. rewrite map_fold_insert_L; [done| |done].
  intros. lia.
Qed.

Lemma hist_sum_bump (m : gmap string Z) (k : string) :
  hist_sum (<[k := default 0 (m !! k) + 1]> m) = hist_sum m + 1.
Proof.
  destruct (m !! k) as [x|] eqn:Hk; simpl.
  - rewrite <- insert_delete_eq.
    rewrite hist_sum_insert_fresh by apply lookup_delete_eq.
    unfold hist_sum at 2. rewrite (map_fold_delete_L _ _ k x m); [|intros; lia|done].
    fold (hist_sum (delete k m)). lia.
  - rewrite hist_sum_insert_fresh by done. lia.
Qed.

(** The histogram of lines 309-313 counts every failed record once. *)
Lemma count_failures_sum (rs : list RunResult) :
  hist_sum (count_failures rs) = Z.of_nat (length (failures rs)).
Proof.
  unfold count_failures.
  set (step := λ (m : gmap string Z) (r : RunResult), _).
  enough (∀ m, hist_sum (fold_left step rs m)
               = hist_sum m + Z.of_nat (length (failures rs))) as Hgen.
  { rewrite Hgen. unfold hist_sum. by rewrite map_fold_empty. }
  unfold failures. induction rs as [|r rs IH]; intros m; simpl; [lia|].
  rewrite IH, filter_cons. unfold step at 1.
  destruct (ok r); simpl; [lia|]. rewrite hist_sum_bump. lia.
Qed.

Section Histogram.
Context `{PyRuntime}.

(** Every record of a run has no error kind when it succeeded and one of
    the five kinds when it failed. *)
Lemma details_error_kinds (args : Args) (E : Env) (code : Z) (rep : Report) :
  main args E = Some (code, Some rep) →
  ∀ r, r ∈ details rep →
    (ok r = true → error r = None)
    ∧ (ok r = false → ∃ kind, error r = Some kind ∧ kind ∈ error_kinds).
Proof.
  intros Hmain r Hr.
  destruct (main_details args E code rep Hmain) as [_ Hall].
  destruct (Hall r Hr) as (p & rel & tr0 & _ & -> & _).
  destruct (process_file_calls args E p rel tr0)
    as (i & a & b & mds & _ & _ & _ & _ & _ & Hnone & Herr & _).
  cbv zeta in *. split; [done|]. intros Hf. destruct (Herr Hf) as (c & -> & _).
  eexists. split; [done|]. apply classify_error_in_kinds.
Qed.

(** X6. The failure histogram of a run counts every failed file exactly
    once: its values add up to the number of failures; its keys are error
    kinds; and under each key stands the positive number of failed records
    with that error kind. *)
Theorem failure_histogram (args : Args) (E : Env) (code : Z) (rep : Report) :
  main args E = Some (code, Some rep) →
  let hist := failures_by_type (summary rep) in
  hist_sum hist = s_failed (summary rep)
  ∧ ∀ kind n,
      hist !! kind = Some n →
      kind ∈ error_kinds
      ∧ 0 < n
      ∧ n = Z.of_nat (length (filter (λ r, error r = Some kind) (failures (details rep)))).
Proof.
  intros Hmain hist. subst hist.
  pose proof (details_error_kinds args E code rep Hmain) as Hkinds.
  destruct (main_inv args E code rep Hmain) as (_ & _ & Hagg & -> & _).
  destruct (aggregate_inv _ _ Hagg) as (Htot & Hok & _ & _ & _ & Hfail & _).
  cbn [failures_by_type s_failed summary_of]. rewrite Hfail, Htot, Hok.
  split.
  { rewrite count_failures_sum.
    pose proof (successes_failures_length (details rep)). lia. }
  intros kind n Hlook.
  pose proof (count_failures_lookup (details rep) kind) as Hspec. cbv zeta in Hspec.
  rewrite Hlook in Hspec.
  assert (filter (λ r, ok r = false ∧ Py.or_str (error r) "unknown" = kind) (details rep)
          = filter (λ r, error r = Some kind) (failures (details rep))) as Heq.
  { unfold failures. generalize (details rep) Hkinds. intros rs Hrs.
    induction rs as [|r rs IH]; [done|].
    rewrite !filter_cons.
    destruct (Hrs r) as [Hs Hf]; [left|].
    rewrite IH by (intros r' Hr'; apply Hrs; by right). clear IH.
    destruct (ok r) eqn:Hr.
    - rewrite decide_False by (intros [? _]; done).
      rewrite (decide_False (P := true = false)) by done.
      done.
    - rewrite (decide_True (P := false = false)) by done. rewrite filter_cons.
      destruct (Hf eq_refl) as (k & Hk & Hin). rewrite Hk.
      assert (Py.or_str (Some k) "unknown" = k) as ->.
      { unfold error_kinds in Hin. set_unfold in Hin.
        by destruct Hin as [->|[->|[->|[->|[->|[]]]]]]. }
      destruct (decide (k = kind)) as [->|Hne].
      + rewrite decide_True by done. rewrite decide_True by done. done.
      + rewrite decide_False by (intros [_ ?]; done).
        rewrite decide_False by congruence. done. }
  rewrite Heq in Hspec. clear Heq.
  destruct (decide (length _ = 0%nat)) as [|Hpos]; [done|].
  injection Hspec as ->. split; [|split; [lia|done]].
  destruct (filter _ _) as [|r l] eqn:Hfl; [done|].
  assert (r ∈ filter (λ r, error r = Some kind) (failures (details rep))) as Hr
    by (rewrite Hfl; left).
  apply list_elem_of_filter in Hr as [Herr Hr].
  apply list_elem_of_filter in Hr as [Hfailed Hr].
  destruct (Hkinds r Hr) as [_ Hf]. destruct (Hf Hfailed) as (k & Hk & Hin). congruence.
Qed.

End Histogram.

(** ** Rates and rounding *)

Lemma rate_unit_interval (a b : Z) :
  0 ≤ a ≤ b → (0 <= rate a b)%Q ∧ (rate a b <= 1)%Q.
Proof.
  intros [Ha Hab]. unfold rate. destruct (Z.eqb_spec b 0) as [|Hb]; [done|].
  assert (0 < inject_Z b)%Q as Hb'.
  { change 0%Q with (inject_Z 0). rewrite <- Zlt_Qlt. lia. }
  assert (inject_Z 0 <= inject_Z a)%Q as Ha' by (by rewrite <- Zle_Qle).
  assert (inject_Z a <= inject_Z b)%Q as Hab' by (by rewrite <- Zle_Qle).
  change (inject_Z 0) with 0%Q in Ha'.
  split.
  - apply Qle_shift_div_l; [done|]. lra.
  - apply Qle_shift_div_r; [done|]. lra.
Qed.

(** Rounding to four decimals moves a value by at most half a unit of the
    fourth decimal, and keeps it between 0 and 1. *)
Lemma four_decimals_near (q : Q) : (Qabs (four_decimals q - q) <= 1 # 20000)%Q.
Proof.
  unfold four_decimals, Py.round_ndigits.
  change (inject_Z (10 ^ Z.of_nat 4)) with (10000 # 1)%Q.
  pose proof (round_near (q * (10000 # 1))) as Hnear.
  apply Qabs_Qle_condition in Hnear as [Hlo Hhi].
  set (r := inject_Z (Py.round (q * (10000 # 1)))) in *.
  clearbody r. unfold Qdiv. change (/ (10000 # 1))%Q with (1 # 10000)%Q.
  apply Qabs_Qle_condition. split; lra.
Qed.

Lemma four_decimals_unit_interval (q : Q) :
  (0 <= q)%Q → (q <= 1)%Q → (0 <= four_decimals q)%Q ∧ (four_decimals q <= 1)%Q.
Proof.
  intros H0 H1. unfold four_decimals, Py.round_ndigits.
  change (inject_Z (10 ^ Z.of_nat 4)) with (10000 # 1)%Q.
  destruct (round_between (q * (10000 # 1)) 0 10000) as [Hlo Hhi].
  { change (inject_Z 0) with 0%Q. lra. }
  { change (inject_Z 10000) with (10000 # 1)%Q. lra. }
  rewrite Zle_Qle in Hlo. rewrite Zle_Qle in Hhi.
  change (inject_Z 0) with 0%Q in Hlo. change (inject_Z 10000) with (10000 # 1)%Q in Hhi.
  unfold Qdiv. change (/ (10000 # 1))%Q with (1 # 10000)%Q. split; lra.
Qed.

Lemma category_meets_exact_to_rounded (k : string) (m : Q) (rs : list RunResult) :
  category_meets (λ q, q) k (m + (1 # 20000)) rs → category_meets four_decimals k m rs.
Proof.
  unfold category_meets. intros Hex Hne. specialize (Hex Hne).
  pose proof (four_decimals_near (success_rate (in_category k rs))) as Hnear.
  apply Qabs_Qle_condition in Hnear as [Hlo _]. lra.
Qed.

Lemma category_meets_rounded_to_exact (k : string) (m : Q) (rs : list RunResult) :
  category_meets four_decimals k m rs → category_meets (λ q, q) k (m + - (1 # 20000)) rs.
Proof.
  unfold category_meets. intros Hex Hne. specialize (Hex Hne).
  pose proof (four_decimals_near (success_rate (in_category k rs))) as Hnear.
  apply Qabs_Qle_condition in Hnear as [_ Hhi]. lra.
Qed.

Section Rates.
Context `{PyRuntime}.

(** X7. Every success rate the summary shows, the determinism rate the gate
    compares and the determinism rate the summary shows lie between 0 and
    1. *)
Theorem rates_in_unit_interval (args : Args) (E : Env) (code : Z) (rep : Report) :
  main args E = Some (code, Some rep) →
  (∀ k, (0 <= cat_get k (s_success_rate (summary rep)))%Q
        ∧ (cat_get k (s_success_rate (summary rep)) <= 1)%Q)
  ∧ ((0 <= a_det_rate (rep_aggregate rep))%Q ∧ (a_det_rate (rep_aggregate rep) <= 1)%Q)
  ∧ ((0 <= deterministic_rate (summary rep))%Q ∧ (deterministic_rate (summary rep) <= 1)%Q).
Proof.
  intros (_ & _ & Hagg & -> & _)%main_inv.
  destruct (aggregate_inv _ _ Hagg) as (_ & Hok & Hdet & Hrate & _ & _ & Hcat).
  cbn [s_success_rate deterministic_rate summary_of].
  assert ((0 <= a_det_rate (rep_aggregate rep))%Q ∧ (a_det_rate (rep_aggregate rep) <= 1)%Q)
    as Hd.
  { rewrite Hrate, Hdet, Hok. apply rate_unit_interval. split; [lia|].
    apply inj_le. unfold reproducible. apply length_filter. }
  split; [|split; [done|]].
  - intros k. destruct (Hcat k) as (Htot & Hoks & ->). rewrite Hoks, Htot.
    apply four_decimals_unit_interval; apply rate_unit_interval;
      (split; [lia|]; apply inj_le; unfold successes; apply length_filter).
  - destruct Hd. by apply four_decimals_unit_interval.
Qed.

(** X8. The rounding of the success rates moves the gate by at most half a
    unit of the fourth decimal: a run whose exact rates meet the category
    minima raised by 0.00005 passes, and a run that passes has exact rates
    that meet the minima lowered by 0.00005. *)
Theorem category_rounding_tolerance (args : Args) (E : Env) (code : Z) (rep : Report) :
  main args E = Some (code, Some rep) →
  (thresholds_met (λ q, q) (shift_minima (1 # 20000) args) (details rep) → code = 0)
  ∧ (code = 0 → thresholds_met (λ q, q) (shift_minima (- (1 # 20000)) args) (details rep)).
Proof.
  intros Hmain. destruct (main_exit_code args E code rep Hmain) as [_ Hiff].
  rewrite Hiff. unfold thresholds_met. cbn [shift_minima min_corpus_size min_success_a
    min_success_b min_success_c min_deterministic_rate].
  split.
  - intros (Hs & HA & HB & HC & HD).
    do 3 (split; [done || by apply category_meets_exact_to_rounded|]).
    split; [by apply category_meets_exact_to_rounded | done].
  - intros (Hs & HA & HB & HC & HD).
    do 3 (split; [done || by apply category_meets_rounded_to_exact|]).
    split; [by apply category_meets_rounded_to_exact | done].
Qed.

(** X9. When the mapping labels no file A, B or C (an empty mapping, as
    without manifest, is one), every record of the run is unlabeled and the
    gate decides on the corpus size and the determinism rate alone: the
    success rate of the unlabeled files plays no part. *)
Theorem unlabeled_run_gate (args : Args) (E : Env) (code : Z) (rep : Report) :
  Forall (λ kv, kv.2 ∉ [Some "A"; Some "B"; Some "C"]) (category_map E) →
  main args E = Some (code, Some rep) →
  unlabeled (details rep) = details rep
  ∧ (code = 0 ↔
     min_corpus_size args ≤ Z.of_nat (length (details rep))
     ∧ (min_deterministic_rate args <= determinism_rate (details rep))%Q).
Proof.
  intros Hmap Hmain.
  assert (∀ r, r ∈ details rep → cat_key (category r) = K_) as Hun.
  { intros r Hr. destruct (main_details args E code rep Hmain) as [_ Hall].
    destruct (Hall r Hr) as (p & rel & tr0 & _ & -> & _).
    destruct (process_file_inv args E p rel tr0)
      as (i & a & b & md & mds & _ & _ & _ & _ & _ & _ & _ & -> & _).
    unfold dict_get. destruct (list_find _ _) as [[n [k v]]|] eqn:Hfind; [|done].
    apply list_find_Some in Hfind as (Hn & _ & _).
    apply list_elem_of_lookup_2 in Hn. rewrite Forall_forall in Hmap.
    specialize (Hmap _ Hn). simpl in Hmap.
    rewrite !not_elem_of_cons in Hmap. destruct Hmap as (HA & HB & HC & _).
    unfold cat_key. by rewrite !decide_False. }
  assert (∀ k, k ∈ ["A"; "B"; "C"] → in_category k (details rep) = []) as Hnone.
  { intros k Hk. unfold in_category. apply filter_none. intros r Hr Hc.
    specialize (Hun r Hr). rewrite Hc in Hun. unfold cat_key in Hun.
    rewrite !elem_of_cons in Hk.
    destruct Hk as [Hk | [Hk | [Hk | Hk]]]; [subst k; repeat case_decide; done..|].
    by apply elem_of_nil in Hk. }
  split.
  - unfold unlabeled. generalize (details rep) Hun. intros rs Hrs.
    induction rs as [|r rs IH]; [done|].
    rewrite filter_cons_True by (apply Hrs; left).
    rewrite IH; [done|]. intros r' Hr'. apply Hrs. by right.
  - destruct (main_exit_code args E code rep Hmain) as [_ ->].
    unfold thresholds_met, category_meets.
    rewrite (Hnone "A"), (Hnone "B"), (Hnone "C") by (rewrite !elem_of_cons; auto).
    tauto.
Qed.

(** X10. A run without a single successful file has determinism rate 0 and
    fails the gate whenever the minimum determinism rate is positive. *)
Theorem no_success_fails (args : Args) (E : Env) (code : Z) (rep : Report) :
  main args E = Some (code, Some rep) →
  successes (details rep) = [] →
  (0 < min_deterministic_rate args)%Q →
  code = 2.
Proof.
  intros Hmain Hnone Hpos.
  destruct (main_exit_code args E code rep Hmain) as [[Hc | Hc] Hiff]; [|done].
  destruct Hiff as [Hmet _]. subst code. destruct (Hmet eq_refl) as (_ & _ & _ & _ & Hd).
  unfold determinism_rate in Hd. rewrite Hnone in Hd. lra.
Qed.

(** X11. A positive cap on the number of files that is below the minimum
    corpus size makes the gate fail: the run ends with 2, or with 3 when the
    setup fails, never with 0. *)
Theorem cap_below_minimum_fails (args : Args) (E : Env) (code : Z) (rep : option Report) :
  main args E = Some (code, rep) →
  0 < max_files args < min_corpus_size args →
  code = 2 ∨ code = 3.
Proof.
  intros Hmain [Hcap Hmin].
  destruct rep as [r|]; [|right; by apply (main_without_report args E)].
  destruct (main_exit_code args E code r Hmain) as [Hc Hiff].
  destruct Hc as [Hc | Hc]; [|by left]. subst code. exfalso.
  destruct Hiff as [Hmet _]. destruct (Hmet eq_refl) as (Hsize & _).
  destruct (main_details args E 0 r Hmain) as [Hlen%Forall2_length _].
  rewrite <- Hlen in Hsize. unfold resolve_files, Py.slice_to in Hsize.
  destruct (Z.eqb_spec (max_files args) 0); [lia|].
  destruct (Z.ltb_spec 0 (max_files args)); [|lia]. simpl in Hsize.
  destruct (Z.ltb_spec (max_files args) 0); [lia|].
  rewrite length_take in Hsize. lia.
Qed.

(** X12. For every successful file the determinism verdict is present and
    says whether the hashes of its two structured outputs are equal; two
    byte-identical outputs always give the verdict true. *)
Theorem determinism_verdict (args : Args) (E : Env) (code : Z) (rep : Report) :
  main args E = Some (code, Some rep) →
  every_file args E rep
    (λ _ r invs,
       ok r = true →
       ∃ a b, invs !! 1%nat = Some a ∧ invs !! 2%nat = Some b
         ∧ (deterministic r = Some true
            ↔ sha256_bytes (inv_stdout a) = sha256_bytes (inv_stdout b))
         ∧ (deterministic r = Some false
            ↔ sha256_bytes (inv_stdout a) ≠ sha256_bytes (inv_stdout b))
         ∧ (inv_stdout a = inv_stdout b → deterministic r = Some true)).
Proof.
  apply every_file_intro. intros p rel tr0 invs Htr.
  destruct (process_file_calls args E p rel tr0)
    as (i & a & b & mds & Htr' & _ & _ & _ & _ & _ & _ & _ & _ & Hdet & _).
  cbv zeta in *. rewrite Htr in Htr'. apply app_inv_head in Htr'. subst invs.
  intros Hok. rewrite Hok in Hdet. exists a, b. do 2 (split; [done|]). rewrite Hdet.
  destruct (String.eqb_spec (sha256_bytes (inv_stdout a)) (sha256_bytes (inv_stdout b)))
    as [Heq|Hne].
  - split; [done|]. split; [split; [done | by intros []]|]. done.
  - split; [split; [done | by intros ?]|]. split; [done|].
    intros Hout. by rewrite Hout in Hne.
Qed.

End Rates.

(** ** Percentiles, once more *)

Lemma round_mono (x y : Q) : (x <= y)%Q → Py.round x ≤ Py.round y.
Proof.
  intros Hxy. pose proof (Qfloor_resp_le _ _ Hxy) as Hf.
  pose proof (Qfloor_le x) as Hx0. pose proof (Qlt_floor x) as Hx1.
  pose proof (Qfloor_le y) as Hy0. pose proof (Qlt_floor y) as Hy1.
  rewrite inject_Z_plus in Hx1, Hy1. change (inject_Z 1) with 1%Q in Hx1, Hy1.
  unfold Py.round; cbv zeta.
  destruct (Z.eq_dec (Qfloor x) (Qfloor y)) as [Heq|Hne].
  - rewrite Heq in *.
    destruct (Qcompare_cases (x - inject_Z (Qfloor y)) (1 # 2)) as [[-> Hc] | [[-> Hc] | [-> Hc]]];
      destruct (Qcompare_cases (y - inject_Z (Qfloor y)) (1 # 2))
        as [[-> Hd] | [[-> Hd] | [-> Hd]]];
      try destruct (Z.even (Qfloor y)); try lia; exfalso; lra.
  - assert (Qfloor x + 1 ≤ Qfloor y) by lia.
    destruct (x - inject_Z (Qfloor x) ?= 1 # 2)%Q, (y - inject_Z (Qfloor y) ?= 1 # 2)%Q;
      try destruct (Z.even (Qfloor x)); try destruct (Z.even (Qfloor y)); lia.
Qed.

Lemma sorted_lookup_le (v : list Z) (i j : nat) (a b : Z) :
  StronglySorted Z.le v → v !! i = Some a → v !! j = Some b → (i ≤ j)%nat → a ≤ b.
Proof.
  intros Hs. revert i j. induction Hs as [|x v Hs IH Hall]; intros i j Hi Hj Hij; [done|].
  destruct i as [|i], j as [|j]; simpl in *.
  - injection Hi as <-. injection Hj as <-. lia.
  - injection Hi as <-. rewrite Forall_forall in Hall. apply Hall.
    by eapply list_elem_of_lookup_2.
  - lia.
  - apply (IH i j); [done..|lia].
Qed.

(** On a non-empty list [pick] reads the position [round (p * (n - 1))]. *)
Lemma pick_lookup (v : list Z) (p : Q) :
  v ≠ [] → (0 <= p)%Q → (p <= 1)%Q →
  pick v p = v !! Z.to_nat (Py.round (p * inject_Z (Z.of_nat (length v) - 1)))
  ∧ 0 ≤ Py.round (p * inject_Z (Z.of_nat (length v) - 1)).
Proof.
  intros Hv Hp0 Hp1. unfold pick.
  set (m := Z.of_nat (length v) - 1).
  assert (0 ≤ m) as Hm by (destruct v; [done | simpl in *; lia]).
  assert (inject_Z 0 <= inject_Z m)%Q as Hm' by (by rewrite <- Zle_Qle).
  change (inject_Z 0) with 0%Q in Hm'.
  destruct (round_between (p * inject_Z m) 0 m) as [Hlo Hhi].
  { change (inject_Z 0) with 0%Q. nra. }
  { nra. }
  set (r := Py.round (p * inject_Z m)) in *.
  replace (Z.max 0 (Z.min m r)) with r by lia.
  unfold Py.index. destruct (Z.ltb_spec r 0) as [|_]; [lia|]. done.
Qed.

(** Order and membership of the three picks from a non-empty list. *)
Lemma percentiles_order_members (y : Z) (values : list Z) :
  ∃ r, percentiles (y :: values) = Some r
    ∧ p50 r ≤ p95 r ≤ p99 r
    ∧ p50 r ∈ y :: values ∧ p95 r ∈ y :: values ∧ p99 r ∈ y :: values.
Proof.
  unfold percentiles. set (v := merge_sort Z.le (y :: values)).
  assert (v ≡ₚ y :: values) as Hperm by apply merge_sort_Permutation.
  assert (v ≠ []) as Hv.
  { intros Hnil. rewrite Hnil in Hperm. by apply Permutation_nil_cons in Hperm. }
  assert (StronglySorted Z.le v) as Hs by apply (StronglySorted_merge_sort Z.le).
  assert (0 ≤ Z.of_nat (length v) - 1) as Hm by (destruct v; [done | simpl in *; lia]).
  assert (inject_Z 0 <= inject_Z (Z.of_nat (length v) - 1))%Q as Hm'
    by (by rewrite <- Zle_Qle).
  change (inject_Z 0) with 0%Q in Hm'.
  destruct (pick_lookup v (50 # 100) Hv) as [Ea Ha]; [done..|].
  destruct (pick_lookup v (95 # 100) Hv) as [Eb Hb]; [done..|].
  destruct (pick_lookup v (99 # 100) Hv) as [Ec Hc]; [done..|].
  destruct (pick_nearest_rank v (50 # 100) Hv) as (a & Hpa & _); [done..|].
  destruct (pick_nearest_rank v (95 # 100) Hv) as (b & Hpb & _); [done..|].
  destruct (pick_nearest_rank v (99 # 100) Hv) as (c & Hpc & _); [done..|].
  rewrite Hpa, Hpb, Hpc. eexists. split; [done|]. simpl.
  rewrite Hpa in Ea. rewrite Hpb in Eb. rewrite Hpc in Ec.
  split; [split|].
  - eapply (sorted_lookup_le v); [done|symmetry; exact Ea|symmetry; exact Eb|].
    apply Z2Nat.inj_le; [done..|]. apply round_mono. nra.
  - eapply (sorted_lookup_le v); [done|symmetry; exact Eb|symmetry; exact Ec|].
    apply Z2Nat.inj_le; [done..|]. apply round_mono. nra.
  - symmetry in Ea, Eb, Ec.
    apply list_elem_of_lookup_2 in Ea, Eb, Ec. rewrite <- Hperm. done.
Qed.

(** X13. The timing percentiles are ordered, p50 <= p95 <= p99, and on a
    non-empty list each of them is one of the given values. *)
Theorem percentiles_ordered (values : list Z) :
  ∃ r, percentiles values = Some r
    ∧ p50 r ≤ p95 r ≤ p99 r
    ∧ (values ≠ [] → p50 r ∈ values ∧ p95 r ∈ values ∧ p99 r ∈ values).
Proof.
  destruct values as [|y values].
  - eexists. split; [done|]. simpl. split; [lia | done].
  - destruct (percentiles_order_members y values) as (r & Hr & Hord & Hmem).
    exists r. done.
Qed.

(** ** The resolved files *)

(** X14. Every resolved file is a regular file at the path joined from the
    corpus root and its relative path; the resolved list is an initial part
    of what [find_corpus_files] returns, of at most [max_files] entries when
    that cap is positive. *)
Theorem resolved_files_regular (args : Args) (E : Env) :
  (∀ p rel, (p, rel) ∈ resolve_files args E → p = path_join E rel ∧ fs_is_file E p = true)
  ∧ resolve_files args E `prefix_of` find_corpus_files E (category_map E)
  ∧ (0 < max_files args → Z.of_nat (length (resolve_files args E)) ≤ max_files args).
Proof.
  assert (resolve_files args E `prefix_of` find_corpus_files E (category_map E)) as Hpre.
  { unfold resolve_files, Py.slice_to.
    destruct (negb (max_files args =? 0) && (0 <? max_files args)); [|done].
    destruct (max_files args <? 0); apply prefix_take. }
  split; [|split; [done|]].
  - intros p rel Hin. destruct Hpre as [rest Hrest].
    assert ((p, rel) ∈ find_corpus_files E (category_map E)) as Hin'.
    { rewrite Hrest. apply elem_of_app. by left. }
    clear Hin Hrest. unfold find_corpus_files in Hin'.
    assert (∀ scan, (p, rel) ∈ scanned_files E scan →
                    p = path_join E rel ∧ fs_is_file E p = true) as Hscan.
    { intros scan Hs. unfold scanned_files in Hs.
      apply list_elem_of_fmap in Hs as (parts & [= -> ->] & Hparts).
      by apply list_elem_of_filter in Hparts as [Hfile _]. }
    assert (∀ keys, (p, rel) ∈ manifest_files E keys →
                    p = path_join E rel ∧ fs_is_file E p = true) as Hman.
    { intros keys Hk. rewrite manifest_files_filter in Hk.
      apply list_elem_of_fmap in Hk as (rel' & [= -> ->] & Hrel).
      apply list_elem_of_filter in Hrel as [Hfile _].
      by apply andb_true_iff in Hfile as [_ Hfile]. }
    destruct (category_map E) as [|kv m].
    + rewrite scan_files_filter in Hin'. by apply (Hscan _ Hin').
    + destruct (manifest_files E ((kv :: m).*1)) as [|f fs] eqn:Hm.
      * rewrite scan_files_filter in Hin'. by apply (Hscan _ Hin').
      * rewrite <- Hm in Hin'. by apply (Hman _ Hin').
  - intros Hcap. unfold resolve_files, Py.slice_to.
    destruct (Z.eqb_spec (max_files args) 0); [lia|].
    destruct (Z.ltb_spec 0 (max_files args)); [|lia]. simpl.
    destruct (Z.ltb_spec (max_files args) 0); [lia|].
    rewrite length_take. lia.
Qed.

(** ** The manifest loader *)


Lemma dict_get_set (m : list (string * option string)) (k k' : string) (v : option string) :
  dict_get (dict_set m k v) k' = if decide (k' = k) then v else dict_get m k'.
Proof.
  unfold dict_get. induction m as [|[k0 v0] m IH]; simpl.
  - destruct (decide (k = k')) as [->|Hne].
    + by rewrite decide_True.
    + by rewrite decide_False by done.
  - destruct (decide (k0 = k)) as [->|Hne]; simpl.
    + destruct (decide (k = k')) as [->|Hne'].
      * by rewrite decide_True.
      * by rewrite decide_False by done.
    + destruct (decide (k0 = k')) as [->|Hne'].
      * by rewrite decide_False by done.
      * revert IH. destruct (list_find _ (dict_set m k v)) as [[n1 [k1 v1]]|],
          (list_find _ m) as [[n2 [k2 v2]]|]; simpl; done.
Qed.

Lemma dict_set_values (P : option string → Prop) (m : list (string * option string))
    (k : string) (v : option string) :
  P v → Forall (λ kv, P kv.2) m → Forall (λ kv, P kv.2) (dict_set m k v).
Proof.
  intros Hv. induction m as [|[k' v'] m IH]; simpl.
  - by repeat constructor.
  - intros [Hk' Hm]%Forall_cons. destruct (decide (k' = k)); constructor; auto.
Qed.

Section LoaderProofs.
Context `{PyStr}.

Lemma normalize_category_cases (cat : option string) :
  normalize_category cat ∈ [None; Some "A"; Some "B"; Some "C"].
Proof.
  unfold normalize_category. destruct cat as [c|]; [|left].
  case_bool_decide as Hin; [|left].
  rewrite !elem_of_cons in Hin. rewrite !elem_of_cons.
  destruct Hin as [-> | [-> | [-> | Hin]]]; auto. by apply elem_of_nil in Hin.
Qed.

(** The loader, one item further. *)
Lemma load_snoc (items : list ManifestItem) (it : ManifestItem) :
  load_category_map (Parsed (Some (items ++ [it])))
  = match it_relpath it with
    | None => load_category_map (Parsed (Some items))
    | Some rel =>
        if decide (rel = "") then load_category_map (Parsed (Some items))
        else dict_set (load_category_map (Parsed (Some items))) rel
               (normalize_category (it_category it))
    end.
Proof. unfold load_category_map. simpl. by rewrite fold_left_app. Qed.


(** The values of the loaded mapping are normalized. *)
Lemma load_values (manifest : ManifestFile) :
  Forall (λ kv, kv.2 ∈ [None; Some "A"; Some "B"; Some "C"]) (load_category_map manifest).
Proof.
  destruct manifest as [| |[items|]]; try by constructor.
  induction items as [|it items IH] using rev_ind; [by constructor|].
  rewrite load_snoc. destruct (it_relpath it) as [rel|]; [|done].
  case_decide; [done|].
  apply (dict_set_values (λ v, v ∈ [None; Some "A"; Some "B"; Some "C"])); [|done].
  apply normalize_category_cases.
Qed.


(** X16. For a relative path that is not empty, the mapping gives the
    normalized category of the last item of the manifest that names it, and
    null when no item names it: of two items with one relative path, the
    later one decides. *)
Theorem loaded_category_last_item (items : list ManifestItem) (rel : string) :
  rel ≠ "" →
  dict_get (load_category_map (Parsed (Some items))) rel
  = last_item rel items ≫= λ it, normalize_category (it_category it).
Proof.
  intros Hrel. unfold last_item. induction items as [|it items IH] using rev_ind; [done|].
  rewrite load_snoc, reverse_app, reverse_singleton. cbn [app list_find].
  destruct (it_relpath it) as [rel'|] eqn:Hit.
  - destruct (decide (rel' = "")) as [->|Hne].
    + rewrite decide_False by congruence. rewrite IH.
      by destruct (list_find _ (reverse items)) as [[n x]|].
    + rewrite dict_get_set. destruct (decide (rel = rel')) as [->|Hne'].
      * by rewrite decide_True.
      * rewrite decide_False by congruence. rewrite IH.
        by destruct (list_find _ (reverse items)) as [[n x]|].
  - rewrite decide_False by congruence. rewrite IH.
    by destruct (list_find _ (reverse items)) as [[n x]|].
Qed.

End LoaderProofs.

(** ** Runs on a loaded manifest *)

Lemma filter_ext_in {A} (P Q : A → Prop) `{!∀ x, Decision (P x), !∀ x, Decision (Q x)}
    (l : list A) :
  (∀ x, x ∈ l → (P x ↔ Q x)) → filter P l = filter Q l.
Proof.
  induction l as [|x l IH]; intros Hiff; [done|].
  rewrite !filter_cons, IH by (intros y Hy; apply Hiff; by right).
  destruct (Hiff x) as [H1 H2]; [left|].
  destruct (decide (P x)), (decide (Q x)); try done; exfalso; auto.
Qed.

Section LoadedRuns.
Context `{PyRuntime} `{PyStr}.

(** The category of every record of a run is what the mapping gives its
    relative path. *)
Lemma details_categories (args : Args) (E : Env) (code : Z) (rep : Report) :
  main args E = Some (code, Some rep) →
  ∀ r, r ∈ details rep → category r = dict_get (category_map E) (relpath r).
Proof.
  intros Hmain r Hr. destruct (main_details args E code rep Hmain) as [_ Hall].
  destruct (Hall r Hr) as (p & rel & tr0 & _ & -> & _).
  by destruct (process_file_inv args E p rel tr0)
    as (i & a & b & md & mds & _ & _ & _ & _ & _ & _ & -> & -> & _).
Qed.


(** X18. In a run on a loaded manifest the category of every record is
    null or one of "A", "B", "C", and the unlabeled bucket holds exactly the
    records with a null category. *)
Theorem loaded_run_categories (args : Args) (E : Env) (manifest : ManifestFile)
    (code : Z) (rep : Report) :
  main args (with_manifest E manifest) = Some (code, Some rep) →
  Forall (λ r, category r ∈ [None; Some "A"; Some "B"; Some "C"]) (details rep)
  ∧ unlabeled (details rep) = filter (λ r, category r = None) (details rep).
Proof.
  intros Hmain.
  assert (Forall (λ r, category r ∈ [None; Some "A"; Some "B"; Some "C"]) (details rep))
    as Hcats.
  { apply Forall_forall. intros r Hr.
    rewrite (details_categories _ _ _ _ Hmain r Hr). cbn [category_map with_manifest].
    unfold dict_get. destruct (list_find _ _) as [[n [k v]]|] eqn:Hfind; [|left].
    apply list_find_Some in Hfind as (Hn & _ & _). apply list_elem_of_lookup_2 in Hn.
    pose proof (load_values manifest) as Hvals. rewrite Forall_forall in Hvals.
    apply (Hvals _ Hn). }
  split; [done|]. unfold unlabeled. apply filter_ext_in.
  rewrite Forall_forall in Hcats. intros r Hr. specialize (Hcats r Hr).
  rewrite !elem_of_cons in Hcats. unfold cat_key.
  destruct Hcats as [-> | [-> | [-> | [-> | Hnil]]]];
    [| | | |by apply elem_of_nil in Hnil]; repeat case_decide; done.
Qed.

End LoadedRuns.

(** ** The scanner *)

Lemma chunk_size_pos : ∃ k, chunk_size = S k.
Proof. exists (chunk_size - 1)%nat. unfold chunk_size. lia. Qed.



Lemma str_replace_char_id (c : ascii) (by_ s : string) :
  Py.contains (String c EmptyString) s = false → str_replace_char c by_ s = s.
Proof.
  induction s as [|x s IH]; [done|]. rewrite contains_cons.
  intros [Hx Hs]%orb_false_iff. cbn [str_replace_char].
  destruct (decide (x = c)) as [->|Hne].
  - simpl in Hx. destruct (ascii_dec c c); [|done]. by destruct s.
  - by rewrite IH.
Qed.

Section ScannerProofs.
Context `{HashLib}.

(** With an incremental hash, reading by chunks feeds the whole content. *)
Lemma read_chunks_all :
  (∀ h a b, h_update (h_update h a) b = h_update h (a ++ b)) →
  (∀ h, h_update h [] = h) →
  ∀ fuel content h, (length content < fuel)%nat →
    read_chunks fuel content h = h_update h content.
Proof.
  intros Happ Hnil. destruct chunk_size_pos as [k Hk].
  induction fuel as [|fuel IH]; intros content h Hlen; [lia|].
  cbn [read_chunks]. destruct (take chunk_size content) as [|b chunk] eqn:Htake.
  - destruct content as [|b content]; [by rewrite Hnil|].
    rewrite Hk in Htake. done.
  - rewrite IH.
    + by rewrite Happ, <- Htake, take_drop.
    + rewrite length_drop, Hk. destruct content as [|b0 content].
      * by rewrite take_nil in Htake.
      * rewrite length_cons in Hlen |- *. lia.
Qed.

(** X19. Under the two laws of an incremental hash (feeding two chunks in
    turn is feeding their concatenation; feeding nothing changes nothing),
    [sha256_file] returns the digest of the whole content of the file,
    whatever its length: reading in chunks of 1 MiB loses and repeats
    nothing. *)
Theorem sha256_file_whole_content :
  (∀ h a b, h_update (h_update h a) b = h_update h (a ++ b)) →
  (∀ h, h_update h [] = h) →
  ∀ content, sha256_file content = h_hexdigest (h_update h_new content).
Proof.
  intros Happ Hnil content. unfold sha256_file.
  rewrite (read_chunks_all Happ Hnil); [done | lia].
Qed.


End ScannerProofs.

(** ** Scanner, loader and enumeration together *)

Lemma dict_set_fresh (m : list (string * option string)) (k : string) (v : option string) :
  k ∉ m.*1 → dict_set m k v = m ++ [(k, v)].
Proof.
  induction m as [|[k' v'] m IH]; [done|]. rewrite fmap_cons, not_elem_of_cons.
  intros [Hne Hin]. cbn [dict_set]. rewrite decide_False by done. by rewrite IH.
Qed.

(** The existing entries of a manifest that names the scanned paths are
    the regular files of the scan. *)
Lemma manifest_scan_agree (E : Env) (scan : list (list string)) :
  (∀ p, fs_is_file E p = true → fs_exists E p = true) →
  (λ rel, (path_join E rel, rel))
    <$> filter (λ rel, fs_exists E (path_join E rel) && fs_is_file E (path_join E rel) = true)
          (as_posix <$> scan)
  = scanned_files E scan.
Proof.
  intros Hex. unfold scanned_files. induction scan as [|parts scan IH]; [done|].
  rewrite fmap_cons, !filter_cons.
  destruct (fs_is_file E (path_join E (as_posix parts))) eqn:Hfile.
  - rewrite (Hex _ Hfile). cbn [andb]. rewrite !decide_True by done.
    by rewrite !fmap_cons, IH.
  - rewrite andb_false_r. rewrite !decide_False by done. done.
Qed.

Section FreshManifest.
Context `{PyStr} `{HashLib}.

(** Loading a manifest of distinct, non-empty relative paths without
    categories. *)
Lemma load_unlabeled (rels : list string) :
  NoDup rels → "" ∉ rels →
  load_category_map
    (Parsed (Some ((λ rel, {| it_relpath := Some rel; it_category := None |}) <$> rels)))
  = (λ rel, (rel, None)) <$> rels.
Proof.
  induction rels as [|rel rels IH] using rev_ind; [done|].
  rewrite NoDup_app, not_elem_of_app, list_elem_of_singleton.
  intros (Hnd & Hfresh & _) [Hne Hrel]. rewrite !fmap_app. cbn [fmap list_fmap].
  rewrite load_snoc. cbn [it_relpath it_category normalize_category].
  rewrite decide_False by auto. rewrite IH by done.
  rewrite dict_set_fresh; [done|].
  rewrite <- list_fmap_compose. intros Hin%list_elem_of_fmap. destruct Hin as (x & -> & Hx).
  apply (Hfresh x Hx). by apply list_elem_of_singleton.
Qed.

(** X21. A manifest fresh from the scanner changes nothing for the gate:
    when the relative paths of the scan are distinct and not empty, the
    loaded mapping names the scanned paths in path order, each with a null
    category, and the files resolved through it are the files resolved
    without any manifest. *)
Theorem fresh_manifest_agrees_with_scan (E : Env)
    (read : string → option (list Byte.byte)) (items : list ScanItem) :
  scan_items E read = Some items →
  NoDup (as_posix <$> rglob_hwp E) →
  "" ∉ as_posix <$> rglob_hwp E →
  (∀ p, fs_is_file E p = true → fs_exists E p = true) →
  let E' := with_manifest E (manifest_of_scan items) in
  category_map E' = (λ si, (si_relpath si, None)) <$> items
  ∧ find_corpus_files E' (category_map E') = find_corpus_files E [].
Proof.
  intros Hscan Hnd Hne Hex E'.
  set (scan := merge_sort path_le (rglob_hwp E)).
  assert (scan ≡ₚ rglob_hwp E) as Hperm by apply merge_sort_Permutation.
  assert (items = (λ parts, {| si_id := str_replace_char "/" "__" (as_posix parts);
                               si_relpath := as_posix parts;
                               si_sha256 := default "" (sha256_file <$> read (path_join E (as_posix parts)));
                               si_size_bytes := st_size E (path_join E (as_posix parts));
                               si_category := None |}) <$> scan) as Hitems.
  { unfold scan_items in Hscan. fold scan in Hscan. apply mapM_Some in Hscan.
    clear Hperm. induction Hscan as [|parts si ps sis Hsi _ IH]; [done|].
    rewrite fmap_cons, <- IH. f_equal. cbv zeta in Hsi.
    destruct (read (path_join E (as_posix parts))); [|done]. by injection Hsi as <-. }
  assert (category_map E' = (λ rel, (rel, None)) <$> (as_posix <$> scan)) as Hmap.
  { subst E'. cbn [category_map with_manifest]. unfold manifest_of_scan. rewrite Hitems.
    rewrite <- (list_fmap_compose _ _ scan).
    rewrite (list_fmap_ext _
               ((λ rel, {| it_relpath := Some rel; it_category := None |}) ∘ as_posix) scan)
      by done.
    rewrite (list_fmap_compose as_posix).
    rewrite load_unlabeled; [done| |]; by rewrite Hperm. }
  split.
  { rewrite Hmap, Hitems, <- !list_fmap_compose. done. }
  rewrite Hmap. unfold find_corpus_files.
  change (scan_files E' []) with (scan_files E []).
  assert (((λ rel : string, (rel, None : option string)) <$> (as_posix <$> scan)).*1
          = as_posix <$> scan) as Hkeys.
  { generalize (as_posix <$> scan). intros l. induction l as [|x l IH]; [done|].
    by rewrite !fmap_cons, IH. }
  assert (manifest_files E' (as_posix <$> scan) = scanned_files E scan) as Hman.
  { rewrite manifest_files_filter. change (path_join E') with (path_join E).
    change (fs_exists E') with (fs_exists E). change (fs_is_file E') with (fs_is_file E).
    by apply manifest_scan_agree. }
  rewrite (scan_files_filter E []). fold scan. rewrite app_nil_l.
  rewrite Hkeys, Hman.
  destruct ((λ rel : string, (rel, None : option string)) <$> (as_posix <$> scan));
    [done|].
  destruct (scanned_files E scan) eqn:Hsf; [|done].
  change (scan_files E' []) with (scan_files E []).
  rewrite (scan_files_filter E []). fold scan. by rewrite Hsf.
Qed.

End FreshManifest.

(** ** Options, timings and structure counts *)

Section Options.
Context `{PyRuntime}.

Lemma process_file_same_run (args args' : Args) (E : Env) (p rel : string)
    (tr : list Invocation) :
  same_run args args' → process_file args' E p rel tr = process_file args E p rel tr.
Proof.
  intros (Ht & Hc & _). unfold process_file, run_markdown. by rewrite Ht, Hc.
Qed.

Lemma run_files_same_run (args args' : Args) (E : Env) (files : list (string * string)) :
  same_run args args' →
  ∀ results tr, run_files args' E files results tr = run_files args E files results tr.
Proof.
  intros Hsame. induction files as [|[p rel] files IH]; intros results tr; [done|].
  cbn [run_files]. rewrite (process_file_same_run args args') by done.
  destruct (process_file args E p rel tr). apply IH.
Qed.

Lemma resolve_files_same_run (args args' : Args) (E : Env) :
  same_run args args' → resolve_files args' E = resolve_files args E.
Proof. intros (_ & _ & Hm). unfold resolve_files. by rewrite Hm. Qed.

Lemma category_meets_le (shown : Q → Q) (k : string) (m m' : Q) (rs : list RunResult) :
  (m' <= m)%Q → category_meets shown k m rs → category_meets shown k m' rs.
Proof. intros Hle Hmeets Hne. specialize (Hmeets Hne). lra. Qed.

(** X22. The minima and the [--ci] flag play no part before the gate: two
    runs that agree on the deadline, the markdown check and the cap make the
    same calls and leave the same records and the same aggregate; and when no
    minimum of the second run is above the one of the first, the second
    passes if the first does. *)
Theorem lower_minima_keep_pass (args args' : Args) (E : Env) (code : Z) (rep : Report) :
  same_run args args' →
  main args E = Some (code, Some rep) →
  ∃ code' rep',
    main args' E = Some (code', Some rep')
    ∧ details rep' = details rep
    ∧ rep_trace rep' = rep_trace rep
    ∧ rep_aggregate rep' = rep_aggregate rep
    ∧ (minima_le args' args → code = 0 → code' = 0).
Proof.
  intros Hsame Hmain.
  destruct (main_inv args E code rep Hmain) as ((Hdir & Hfiles & Hbin) & Hrun & Hagg & _).
  destruct (main_completes args' E) as (code' & rep' & Hmain').
  { split; [done|]. split; [|done]. by rewrite (resolve_files_same_run args args'). }
  exists code', rep'. split; [done|].
  destruct (main_inv args' E code' rep' Hmain') as (_ & Hrun' & Hagg' & _).
  rewrite (resolve_files_same_run args args'), (run_files_same_run args args') in Hrun'
    by done.
  rewrite Hrun in Hrun'. injection Hrun' as Hd Ht. rewrite <- Hd in Hagg'.
  rewrite Hagg in Hagg'. injection Hagg' as Ha.
  do 3 (split; [done|]). intros (Hn & HA & HB & HC & HD) ->.
  apply (main_exit_code args' E code' rep' Hmain'). rewrite <- Hd.
  destruct (main_exit_code args E 0 rep Hmain) as [_ [Hmet _]].
  destruct (Hmet eq_refl) as (Hn0 & HA0 & HB0 & HC0 & HD0).
  split; [lia|]. split; [by eapply category_meets_le|].
  split; [by eapply category_meets_le|]. split; [by eapply category_meets_le|]. lra.
Qed.



End Options.

(** ** The deadline and the exit status 124 *)

Section Deadline.
Context `{PyRuntime}.

Lemma run_cmd_exit_124 (E : Env) (cmd : list string) (t : Z) (tr tr' : list Invocation) :
  length tr' = length tr →
  ∃ x i i',
    run_cmd E cmd t tr = (x, tr ++ [i])
    ∧ run_cmd (exit_124_for_timeout E) cmd t tr' = (x, tr' ++ [i'])
    ∧ inv_timed_out i' = false.
Proof.
  intros Hlen. unfold run_cmd, exit_124_for_timeout. cbn [subprocess_run]. rewrite Hlen.
  destruct (subprocess_run E (length tr) cmd t) as [[c o e|so se] ms]; by eexists _, _, _.
Qed.

Lemma process_file_exit_124 (args : Args) (E : Env) (p rel : string)
    (tr tr' : list Invocation) :
  length tr' = length tr →
  ∃ invs invs',
    (process_file args E p rel tr).2 = tr ++ invs
    ∧ process_file args (exit_124_for_timeout E) p rel tr'
      = ((process_file args E p rel tr).1, tr' ++ invs')
    ∧ length invs' = length invs
    ∧ Forall (λ i, inv_timed_out i = false) invs'.
Proof.
  intros Hlen. unfold process_file, run_markdown.
  change (hwp_bin (exit_124_for_timeout E)) with (hwp_bin E).
  change (st_size (exit_124_for_timeout E)) with (st_size E).
  change (category_map (exit_124_for_timeout E)) with (category_map E).
  destruct (run_cmd_exit_124 E [hwp_bin E; "info"; p] (timeout_s args) tr tr' Hlen)
    as ([[[ci oi] ei] msi] & i & i' & -> & -> & Hi).
  assert (length (tr' ++ [i']) = length (tr ++ [i])) as Hlen1
    by (rewrite !length_app; simpl; lia).
  destruct (run_cmd_exit_124 E [hwp_bin E; "json"; p] (timeout_s args) _ _ Hlen1)
    as ([[[ca oa] ea] msa] & a & a' & -> & -> & Ha).
  assert (length ((tr' ++ [i']) ++ [a']) = length ((tr ++ [i]) ++ [a])) as Hlen2
    by (rewrite !length_app; simpl; lia).
  destruct (run_cmd_exit_124 E [hwp_bin E; "json"; p] (timeout_s args) _ _ Hlen2)
    as ([[[cb ob] eb] msb] & b & b' & -> & -> & Hb).
  assert (length (((tr' ++ [i']) ++ [a']) ++ [b']) = length (((tr ++ [i]) ++ [a]) ++ [b]))
    as Hlen3 by (rewrite !length_app; simpl; lia).
  destruct (check_markdown args).
  - destruct (run_cmd_exit_124 E [hwp_bin E; "markdown"; p] (timeout_s args) _ _ Hlen3)
      as ([[[cm om] em] msm] & ma & ma' & -> & -> & Hma).
    assert (length ((((tr' ++ [i']) ++ [a']) ++ [b']) ++ [ma'])
            = length ((((tr ++ [i]) ++ [a]) ++ [b]) ++ [ma])) as Hlen4
      by (rewrite !length_app; simpl; lia).
    destruct (run_cmd_exit_124 E [hwp_bin E; "markdown"; p] (timeout_s args) _ _ Hlen4)
      as ([[[cn on] en] msn] & mb & mb' & -> & -> & Hmb).
    exists [i; a; b; ma; mb], [i'; a'; b'; ma'; mb']. cbn [fst snd].
    rewrite <- !app_assoc. split; [done|]. split; [done|]. split; [done|].
    by repeat constructor.
  - exists [i; a; b], [i'; a'; b']. cbn [fst snd].
    rewrite <- !app_assoc. split; [done|]. split; [done|]. split; [done|].
    by repeat constructor.
Qed.

Lemma run_files_exit_124 (args : Args) (E : Env) (files : list (string * string)) :
  ∀ results tr tr',
  length tr' = length tr →
  Forall (λ i, inv_timed_out i = false) tr' →
  ∃ trf',
    run_files args (exit_124_for_timeout E) files results tr'
    = ((run_files args E files results tr).1, trf')
    ∧ Forall (λ i, inv_timed_out i = false) trf'.
Proof.
  induction files as [|[p rel] files IH]; intros results tr tr' Hlen Hnone.
  - by exists tr'.
  - cbn [run_files].
    destruct (process_file_exit_124 args E p rel tr tr' Hlen)
      as (invs & invs' & Htr & -> & Hlen' & Hnone').
    destruct (process_file args E p rel tr) as [r trn]. cbn [fst snd] in *. subst trn.
    apply IH.
    + rewrite !length_app. lia.
    + by apply Forall_app.
Qed.

(** X24. The script cannot tell a child that ran into the deadline from a
    child that exits on its own with status 124: with every timed-out call
    replaced by such a child, the exit code, the detail records (the error
    kinds among them) and the summary are the same, although no call of that
    run timed out. *)
Theorem deadline_reads_as_status_124 (args : Args) (E : Env) :
  run_outputs (main args (exit_124_for_timeout E)) = run_outputs (main args E)
  ∧ ∀ code rep,
      main args (exit_124_for_timeout E) = Some (code, Some rep) →
      ¬ timed_out_file (rep_trace rep).
Proof.
  assert (∃ trf',
    run_files args (exit_124_for_timeout E) (resolve_files args E) [] []
    = ((run_files args E (resolve_files args E) [] []).1, trf')
    ∧ Forall (λ i, inv_timed_out i = false) trf') as (trf' & Hrun & Hnone).
  { by apply run_files_exit_124. }
  unfold main. cbv zeta.
  change (resolve_files args (exit_124_for_timeout E)) with (resolve_files args E).
  change (corpus_dir_exists (exit_124_for_timeout E)) with (corpus_dir_exists E).
  change (hwp_bin_exists (exit_124_for_timeout E)) with (hwp_bin_exists E).
  rewrite Hrun.
  destruct (run_files args E (resolve_files args E) [] []) as [results tr]. cbn [fst].
  destruct (corpus_dir_exists E); cbn [negb]; [|done].
  destruct (resolve_files args E) as [|f files]; [done|].
  destruct (hwp_bin_exists E); cbn [negb]; [|done].
  destruct (aggregate results) as [a|]; cbn [mbind option_bind]; [|done].
  split; [done|]. intros code rep [= _ <-]. cbn [rep_trace].
  intros (i & Hin & Hto). rewrite Forall_forall in Hnone.
  specialize (Hnone i Hin). congruence.
Qed.

End Deadline.

(** ** The timing percentiles of a run *)

Section Timings.
Context `{PyRuntime}.

(** X25. The timing percentiles of the summary are taken over the
    successful files alone: they are ordered, each of them is the timing of
    a successful file, and all three are 0 when no file succeeded. The time
    spent on a failed file, a timed-out one too, never enters them. *)
Theorem summary_timing_percentiles (args : Args) (E : Env) (code : Z) (rep : Report) :
  main args E = Some (code, Some rep) →
  let t := s_timing_ms (summary rep) in
  let timings := timing_ms <$> successes (details rep) in
  p50 t ≤ p95 t ≤ p99 t
  ∧ (timings = [] → p50 t = 0 ∧ p95 t = 0 ∧ p99 t = 0)
  ∧ (timings ≠ [] → p50 t ∈ timings ∧ p95 t ∈ timings ∧ p99 t ∈ timings).
Proof.
  intros (_ & _ & Hagg & Hsum & _)%main_inv. cbv zeta. rewrite Hsum.
  cbn [summary_of s_timing_ms].
  destruct (aggregate_inv _ _ Hagg) as (_ & _ & _ & _ & Hp & _).
  destruct (timing_ms <$> successes (details rep)) as [|y timings].
  - injection Hp as <-. simpl. split; [lia|]. done.
  - destruct (percentiles_order_members y timings) as (r & Hr & Hord & Hmem).
    rewrite Hp in Hr. injection Hr as <-. done.
Qed.

End Timings.

(** ** The ids of the scanner *)

Lemma str_replace_slash_inj (s t : string) :
  Py.contains "_" s = false → Py.contains "_" t = false →
  str_replace_char "/" "__" s = str_replace_char "/" "__" t → s = t.
Proof.
  revert t. induction s as [|x s IH]; intros [|y t] Hs Ht Heq.
  - done.
  - cbn [str_replace_char] in Heq. by destruct (decide (y = "/"%char)).
  - cbn [str_replace_char] in Heq. by destruct (decide (x = "/"%char)).
  - rewrite contains_cons in Hs, Ht.
    apply orb_false_iff in Hs as [Hx Hs]. apply orb_false_iff in Ht as [Hy Ht].
    cbn [str_replace_char] in Heq.
    destruct (decide (x = "/"%char)) as [->|Hx'], (decide (y = "/"%char)) as [->|Hy'].
    + f_equal. apply IH; [done..|]. by injection Heq.
    + injection Heq as <- _. exfalso. simpl in Hy. by destruct t.
    + injection Heq as -> _. exfalso. simpl in Hx. by destruct s.
    + injection Heq as -> Heq. f_equal. by apply IH.
Qed.

Section ScannerIds.
Context `{HashLib}.

Lemma scan_items_item (E : Env) (read : string → option (list Byte.byte))
    (items : list ScanItem) (x : ScanItem) :
  scan_items E read = Some items → x ∈ items →
  ∃ parts, parts ∈ rglob_hwp E
    ∧ si_relpath x = as_posix parts
    ∧ si_id x = str_replace_char "/" "__" (as_posix parts).
Proof.
  unfold scan_items. intros Hitems%mapM_Some Hin.
  assert (∀ parts, parts ∈ merge_sort path_le (rglob_hwp E) → parts ∈ rglob_hwp E) as Hsub.
  { intros parts. by rewrite merge_sort_Permutation. }
  revert Hsub. induction Hitems as [|parts si ps sis Hsi _ IH]; intros Hsub.
  - by apply elem_of_nil in Hin.
  - apply elem_of_cons in Hin as [->|Hin].
    + exists parts. split; [apply Hsub; left|]. cbv zeta in Hsi.
      destruct (read (path_join E (as_posix parts))); [|done]. by injection Hsi as <-.
    + apply IH; [done|]. intros q Hq. apply Hsub. by right.
Qed.

(** X26. When no scanned relative path has an underscore, the id of an
    item identifies its relative path: two items of the written manifest
    with one id have one relative path. *)
Theorem scan_ids_identify (E : Env) (read : string → option (list Byte.byte))
    (items : list ScanItem) :
  scan_items E read = Some items →
  Forall (λ parts, ¬ mentions "_" (as_posix parts)) (rglob_hwp E) →
  ∀ x y, x ∈ items → y ∈ items → si_id x = si_id y → si_relpath x = si_relpath y.
Proof.
  intros Hitems Hfree x y Hx Hy Hid. rewrite Forall_forall in Hfree.
  destruct (scan_items_item E read items x Hitems Hx) as (px & Hpx & -> & Hidx).
  destruct (scan_items_item E read items y Hitems Hy) as (py & Hpy & -> & Hidy).
  rewrite Hidx, Hidy in Hid.
  apply str_replace_slash_inj; [| |done]; apply contains_false_iff; by apply Hfree.
Qed.

End ScannerIds.

(** Without that condition two files can share an id. *)
Example scan_ids_collide :
  str_replace_char "/" "__" (as_posix ["a"; "b.hwp"])
  = str_replace_char "/" "__" (as_posix ["a__b.hwp"]).
Proof. reflexivity. Qed.

(** ** The further properties at concrete runs *)

(** X2 at a run on a manifest of which one file is gone. *)
Lemma details_follow_files_witness :
  ∃ code rep,
    main (H := ascii_runtime) default_args env_manifest = Some (code, Some rep)
    ∧ relpath <$> details rep = (resolve_files default_args env_manifest).*2
    ∧ every_file (H := ascii_runtime) default_args env_manifest rep
        (λ p r _,
           size_bytes r = st_size env_manifest p
           ∧ category r = dict_get (category_map env_manifest) (relpath r)).
Proof.
  eexists _, _. split; [vm_compute; reflexivity|].
  apply (details_follow_files (H := ascii_runtime) default_args env_manifest 2).
  vm_compute. reflexivity.
Defined.

(** X3 at a run with the markdown check. *)
Lemma timing_is_sum_of_calls_witness :
  ∃ code rep,
    main (H := ascii_runtime) args_markdown env_info_fails = Some (code, Some rep)
    ∧ every_file (H := ascii_runtime) args_markdown env_info_fails rep
        (λ _ r invs, timing_ms r = total_ms invs ∧ length invs = 5%nat).
Proof.
  eexists _, _. split; [vm_compute; reflexivity|].
  apply (timing_is_sum_of_calls (H := ascii_runtime) args_markdown env_info_fails 2).
  vm_compute. reflexivity.
Defined.

(** X4 at a run over three files. *)
Lemma calls_of_a_run_witness :
  ∃ code rep,
    main (H := ascii_runtime) args_two_thirds env_two_of_three = Some (code, Some rep)
    ∧ inv_cmd <$> rep_trace rep
      = concat ((λ f, expected_commands args_two_thirds env_two_of_three f.1)
                  <$> resolve_files args_two_thirds env_two_of_three)
    ∧ length (rep_trace rep)
      = (3 * length (resolve_files args_two_thirds env_two_of_three))%nat.
Proof.
  eexists _, _. split; [vm_compute; reflexivity|].
  apply (calls_of_a_run (H := ascii_runtime) args_two_thirds env_two_of_three 0).
  vm_compute. reflexivity.
Defined.

(** X5 at a run with one failed file out of three. *)
Lemma summary_counts_witness :
  ∃ code rep,
    main (H := ascii_runtime) args_two_thirds env_two_of_three = Some (code, Some rep)
    ∧ let s := summary rep in
      total_files s = Z.of_nat (length (resolve_files args_two_thirds env_two_of_three))
      ∧ s_ok s = Z.of_nat (length (successes (details rep)))
      ∧ s_failed s = Z.of_nat (length (failures (details rep)))
      ∧ s_ok s + s_failed s = total_files s
      ∧ at_A (s_totals s) + at_B (s_totals s) + at_C (s_totals s) + at_U (s_totals s)
        = total_files s
      ∧ at_A (s_cat_ok s) + at_B (s_cat_ok s) + at_C (s_cat_ok s) + at_U (s_cat_ok s)
        = s_ok s
      ∧ at_U (s_totals s) = Z.of_nat (length (unlabeled (details rep)))
      ∧ ∀ k, 0 ≤ cat_get k (s_cat_ok s) ≤ cat_get k (s_totals s).
Proof.
  eexists _, _. split; [vm_compute; reflexivity|].
  apply (summary_counts (H := ascii_runtime) args_two_thirds env_two_of_three 0).
  vm_compute. reflexivity.
Defined.

(** X6 at a run with one failed file out of three. *)
Lemma failure_histogram_witness :
  ∃ code rep,
    main (H := ascii_runtime) args_two_thirds env_two_of_three = Some (code, Some rep)
    ∧ hist_sum (failures_by_type (summary rep)) = s_failed (summary rep)
    ∧ ∀ kind n,
        failures_by_type (summary rep) !! kind = Some n →
        kind ∈ error_kinds
        ∧ 0 < n
        ∧ n = Z.of_nat (length (filter (λ r, error r = Some kind)
                                  (failures (details rep)))).
Proof.
  eexists _, _. split; [vm_compute; reflexivity|].
  apply (failure_histogram (H := ascii_runtime) args_two_thirds env_two_of_three 0).
  vm_compute. reflexivity.
Defined.

(** X7 at a run with one failed file out of three. *)
Lemma rates_in_unit_interval_witness :
  ∃ code rep,
    main (H := ascii_runtime) args_two_thirds env_two_of_three = Some (code, Some rep)
    ∧ (∀ k, (0 <= cat_get k (s_success_rate (summary rep)))%Q
            ∧ (cat_get k (s_success_rate (summary rep)) <= 1)%Q)
    ∧ ((0 <= a_det_rate (rep_aggregate rep))%Q ∧ (a_det_rate (rep_aggregate rep) <= 1)%Q)
    ∧ ((0 <= deterministic_rate (summary rep))%Q
       ∧ (deterministic_rate (summary rep) <= 1)%Q).
Proof.
  eexists _, _. split; [vm_compute; reflexivity|].
  apply (rates_in_unit_interval (H := ascii_runtime) args_two_thirds env_two_of_three 0).
  vm_compute. reflexivity.
Defined.

(** X8 at the run that passes on a rounded rate. *)
Lemma category_rounding_tolerance_witness :
  ∃ code rep,
    main (H := ascii_runtime) args_two_thirds env_two_of_three = Some (code, Some rep)
    ∧ (thresholds_met (λ q, q) (shift_minima (1 # 20000) args_two_thirds) (details rep)
       → code = 0)
    ∧ (code = 0
       → thresholds_met (λ q, q) (shift_minima (- (1 # 20000)) args_two_thirds)
           (details rep)).
Proof.
  eexists _, _. split; [vm_compute; reflexivity|].
  apply (category_rounding_tolerance (H := ascii_runtime) args_two_thirds env_two_of_three 0).
  vm_compute. reflexivity.
Defined.

(** X9 at a run on fifty files that the manifest leaves unlabeled. *)
Lemma unlabeled_run_gate_witness :
  ∃ code rep,
    main (H := ascii_runtime) default_args env_fifty = Some (code, Some rep)
    ∧ unlabeled (details rep) = details rep
    ∧ (code = 0 ↔
       min_corpus_size default_args ≤ Z.of_nat (length (details rep))
       ∧ (min_deterministic_rate default_args <= determinism_rate (details rep))%Q).
Proof.
  eexists _, _. split; [vm_compute; reflexivity|].
  apply (unlabeled_run_gate (H := ascii_runtime) default_args env_fifty 2).
  - apply (bool_decide_unpack _). vm_compute. reflexivity.
  - vm_compute. reflexivity.
Defined.

(** X10 at a run whose only file fails. *)
Lemma no_success_fails_witness :
  ∃ code rep,
    main (H := ascii_runtime) default_args env_info_timeout = Some (code, Some rep)
    ∧ code = 2.
Proof.
  eexists _, _. split; [vm_compute; reflexivity|].
  eapply (no_success_fails (H := ascii_runtime) default_args env_info_timeout).
  - vm_compute. reflexivity.
  - vm_compute. reflexivity.
  - reflexivity.
Defined.

(** X11 at a run capped to two files with the default minimum of 100. *)
Lemma cap_below_minimum_fails_witness :
  ∃ code rep,
    main (H := ascii_runtime) args_capped env_two_of_three = Some (code, rep)
    ∧ (code = 2 ∨ code = 3).
Proof.
  eexists _, _. split; [vm_compute; reflexivity|].
  eapply (cap_below_minimum_fails (H := ascii_runtime) args_capped env_two_of_three).
  - vm_compute. reflexivity.
  - simpl. lia.
Defined.

(** X12 at a run in which one file is not reproducible. *)
Lemma determinism_verdict_witness :
  ∃ code rep,
    main (H := ascii_runtime) args_two_thirds_det env_one_unstable = Some (code, Some rep)
    ∧ every_file (H := ascii_runtime) args_two_thirds_det env_one_unstable rep
        (λ _ r invs,
           ok r = true →
           ∃ a b, invs !! 1%nat = Some a ∧ invs !! 2%nat = Some b
             ∧ (deterministic r = Some true
                ↔ sha256_bytes (H := ascii_runtime) (inv_stdout a)
                  = sha256_bytes (H := ascii_runtime) (inv_stdout b))
             ∧ (deterministic r = Some false
                ↔ sha256_bytes (H := ascii_runtime) (inv_stdout a)
                  ≠ sha256_bytes (H := ascii_runtime) (inv_stdout b))
             ∧ (inv_stdout a = inv_stdout b → deterministic r = Some true)).
Proof.
  eexists _, _. split; [vm_compute; reflexivity|].
  apply (determinism_verdict (H := ascii_runtime) args_two_thirds_det env_one_unstable 2).
  vm_compute. reflexivity.
Defined.

(** X16 at the sample manifest, in which two items name one path. *)
Lemma loaded_category_last_item_witness :
  dict_get (load_category_map (H := ascii_str) (Parsed (Some items_sample))) "a.hwp"
  = last_item "a.hwp" items_sample
      ≫= λ it, normalize_category (H := ascii_str) (it_category it).
Proof.
  apply (loaded_category_last_item (H := ascii_str) items_sample "a.hwp").
  discriminate.
Defined.


(** X18 at a run on the sample manifest. *)
Lemma loaded_run_categories_witness :
  ∃ code rep,
    main (H := ascii_runtime) default_args
      (with_manifest (H := ascii_str) env_manifest manifest_sample)
    = Some (code, Some rep)
    ∧ Forall (λ r, category r ∈ [None; Some "A"; Some "B"; Some "C"]) (details rep)
    ∧ unlabeled (details rep) = filter (λ r, category r = None) (details rep).
Proof.
  eexists _, _. split; [vm_compute; reflexivity|].
  apply (loaded_run_categories (H := ascii_runtime) (H0 := ascii_str)
           default_args env_manifest manifest_sample 2).
  vm_compute. reflexivity.
Defined.

(** X19 with the hash that keeps every byte it is fed. *)
Lemma sha256_file_whole_content_witness :
  sha256_file (H := list_hash) (bytes_of "ab")
  = h_hexdigest (h_update (HashLib := list_hash) h_new (bytes_of "ab")).
Proof.
  apply (sha256_file_whole_content (H := list_hash)).
  - intros h a b. simpl. symmetry. apply app_assoc.
  - intros h. simpl. apply app_nil_r.
Defined.

(** X21 at the scan of [env_scan], every file of which can be read. *)
Lemma fresh_manifest_agrees_with_scan_witness :
  ∃ items,
    scan_items (H := list_hash) env_scan read_all = Some items
    ∧ category_map (with_manifest (H := ascii_str) env_scan (manifest_of_scan items))
      = (λ si, (si_relpath si, None)) <$> items
    ∧ find_corpus_files (with_manifest (H := ascii_str) env_scan (manifest_of_scan items))
        (category_map (with_manifest (H := ascii_str) env_scan (manifest_of_scan items)))
      = find_corpus_files env_scan [].
Proof.
  eexists. split; [vm_compute; reflexivity|].
  apply (fresh_manifest_agrees_with_scan (H := ascii_str) (H0 := list_hash)
           env_scan read_all).
  - vm_compute. reflexivity.
  - apply (bool_decide_unpack _). vm_compute. reflexivity.
  - apply (bool_decide_unpack _). vm_compute. reflexivity.
  - intros p _. reflexivity.
Defined.

(** X22 at the run that passes on a rounded rate, with every minimum
    lowered. *)
Lemma lower_minima_keep_pass_witness :
  ∃ code rep,
    main (H := ascii_runtime) args_two_thirds env_two_of_three = Some (code, Some rep)
    ∧ ∃ code' rep',
        main (H := ascii_runtime) args_lowered env_two_of_three = Some (code', Some rep')
        ∧ details rep' = details rep
        ∧ rep_trace rep' = rep_trace rep
        ∧ rep_aggregate rep' = rep_aggregate rep
        ∧ (minima_le args_lowered args_two_thirds → code = 0 → code' = 0).
Proof.
  eexists _, _. split; [vm_compute; reflexivity|].
  apply (lower_minima_keep_pass (H := ascii_runtime)
           args_two_thirds args_lowered env_two_of_three 0).
  - repeat split; reflexivity.
  - vm_compute. reflexivity.
Defined.


(** X25 at a run with one failed file out of three. *)
Lemma summary_timing_percentiles_witness :
  ∃ code rep,
    main (H := ascii_runtime) args_two_thirds env_two_of_three = Some (code, Some rep)
    ∧ let t := s_timing_ms (summary rep) in
      let timings := timing_ms <$> successes (details rep) in
      p50 t ≤ p95 t ≤ p99 t
      ∧ (timings = [] → p50 t = 0 ∧ p95 t = 0 ∧ p99 t = 0)
      ∧ (timings ≠ [] → p50 t ∈ timings ∧ p95 t ∈ timings ∧ p99 t ∈ timings).
Proof.
  eexists _, _. split; [vm_compute; reflexivity|].
  apply (summary_timing_percentiles (H := ascii_runtime) args_two_thirds env_two_of_three 0).
  vm_compute. reflexivity.
Defined.

(** X26 at the scan of [env_scan], no path of which has an underscore. *)
Lemma scan_ids_identify_witness :
  ∃ items,
    scan_items (H := list_hash) env_scan read_all = Some items
    ∧ ∀ x y, x ∈ items → y ∈ items → si_id x = si_id y → si_relpath x = si_relpath y.
Proof.
  eexists. split; [vm_compute; reflexivity|].
  apply (scan_ids_identify (H := list_hash) env_scan read_all).
  - vm_compute. reflexivity.
  - repeat constructor; apply contains_false_iff; reflexivity.
Defined.

(** X24 at work: [info] runs into the deadline in [env_deadline]; the
    record is a timeout in both worlds. *)
Example exit_124_recorded_as_timeout :
  ∃ rep r,
    main (H := ascii_runtime) default_args (exit_124_for_timeout env_deadline)
    = Some (2, Some rep)
    ∧ details rep = [r] ∧ error r = Some "timeout" ∧ ¬ timed_out_file (rep_trace rep).
Proof.
  eexists _, _. split; [vm_compute; reflexivity|]. split; [done|]. split; [done|].
  intros (i & Hin & Hto). simpl in Hin.
  repeat (apply elem_of_cons in Hin as [->|Hin]; [done|]). by apply elem_of_nil in Hin.
Qed.
